(** * lyricfinder: metadata resolution, candidate selection and LRC rendering

    A shallow embedding of [lyricfinder.py].  Python [str] values are
    modelled as [string]; an [ascii] stands for a code point in the range
    U+0000..U+00FF, and the character classes below are Python's own on
    that range.  Exceptions are explicit: a computation that may raise
    returns a [result]. *)

From Stdlib Require Import Strings.String Strings.Ascii.
From Stdlib Require Import Lists.List Bool.Bool Arith.Arith Arith.PeanoNat.
From Stdlib Require Import ZArith.ZArith QArith.QArith QArith.Qround micromega.Lia.
From Stdlib Require Import QArith.Qabs micromega.Lqa.
Import ListNotations.

Local Open Scope nat_scope.
Local Open Scope bool_scope.
Local Open Scope list_scope.
Local Open Scope string_scope.

(* ------------------------------------------------------------------ *)
(** ** Exceptions *)

Module Py.

(** The exception classes that occur.  [KeyboardInterrupt] and
    [SystemExit] derive from [BaseException] only, the others from
    [Exception]. *)
Inductive exn : Type :=
| ValueError | TypeError | IndexError | OverflowError | AttributeError
| MutagenError | OSError | RequestException
| KeyboardInterrupt | SystemExit.

Definition is_Exception (e : exn) : bool :=
  match e with
  | KeyboardInterrupt | SystemExit => false
  | _ => true
  end.

Definition is_ValueError (e : exn) : bool :=
  match e with
  | ValueError => true
  | _ => false
  end.

Inductive result (A : Type) : Type :=
| Return (a : A)
| Raise (e : exn).

Arguments Return {A} a.
Arguments Raise {A} e.

Definition bind {A B : Type} (m : result A) (k : A -> result B) : result B :=
  match m with
  | Return a => k a
  | Raise e => Raise e
  end.

(** [try: body / except <class>: handler], the class given by its
    membership test. *)
Definition try_except {A : Type} (body : result A) (catches : exn -> bool)
    (handler : result A) : result A :=
  match body with
  | Return a => Return a
  | Raise e => if catches e then handler else Raise e
  end.

(** Truth value of an [Optional[str]]: [None] and [""] are false. *)
Definition truthy (o : option string) : bool :=
  match o with
  | Some (String _ _) => true
  | _ => false
  end.

(** The text of an [Optional[str]] in an f-string slot or a comparison,
    where [None] has been ruled out or counts as empty. *)
Definition or_empty (o : option string) : string :=
  match o with
  | Some s => s
  | None => ""
  end.

(** [s or d] for an [Optional[str]] [s] and a [str] [d]. *)
Definition or_str (o : option string) (d : string) : string :=
  match o with
  | Some (String c s) => String c s
  | _ => d
  end.

(** [s or None]. *)
Definition or_None (o : option string) : option string :=
  if truthy o then o else None.

(** [a or b]. *)
Definition or_else (a b : option string) : option string :=
  if truthy a then a else b.

(** [l[i]]. *)
Definition getitem {A : Type} (l : list A) (i : nat) : result A :=
  match nth_error l i with
  | Some x => Return x
  | None => Raise IndexError
  end.

End Py.

Import Py.

Notation "x <- m ;; k" := (bind m (fun x => k))
  (at level 61, m at next level, right associativity).

(* ------------------------------------------------------------------ *)
(** ** Python [str] operations *)

Module Str.

Definition code (c : ascii) : nat := nat_of_ascii c.

(** [lo <= n <= hi] *)
Definition between (lo hi n : nat) : bool := Nat.leb lo n && Nat.leb n hi.

(** [str.isspace] on one character; also what [\s] matches. *)
Definition isspace (c : ascii) : bool :=
  let n := code c in
  between 9 13 n || between 28 32 n || Nat.eqb n 133 || Nat.eqb n 160.

(** What [\d] matches. *)
Definition isdigit (c : ascii) : bool := between 48 57 (code c).

(** A line boundary of [str.splitlines]. *)
Definition islinebreak (c : ascii) : bool :=
  let n := code c in
  between 10 13 n || between 28 30 n || Nat.eqb n 133.

Definition lower_char (c : ascii) : ascii :=
  let n := code c in
  if between 65 90 n || (between 192 222 n && negb (Nat.eqb n 215))
  then ascii_of_nat (n + 32) else c.

(** [s.lower()] *)
Fixpoint lower (s : string) : string :=
  match s with
  | EmptyString => EmptyString
  | String c s' => String (lower_char c) (lower s')
  end.

(** [s.lstrip()] *)
Fixpoint lstrip (s : string) : string :=
  match s with
  | EmptyString => EmptyString
  | String c s' => if isspace c then lstrip s' else s
  end.

(** [s.rstrip()] *)
Fixpoint rstrip (s : string) : string :=
  match s with
  | EmptyString => EmptyString
  | String c s' =>
      match rstrip s' with
      | EmptyString => if isspace c then EmptyString else String c EmptyString
      | r => String c r
      end
  end.

(** [s.strip()] *)
Definition strip (s : string) : string := lstrip (rstrip s).

(** [s.replace(old, new)] for one-character [old] and [new]. *)
Fixpoint replace (old new : ascii) (s : string) : string :=
  match s with
  | EmptyString => EmptyString
  | String c s' =>
      String (if Ascii.eqb c old then new else c) (replace old new s')
  end.

Fixpoint drop (n : nat) (s : string) : string :=
  match n, s with
  | O, _ => s
  | S n', String _ s' => drop n' s'
  | S _, EmptyString => EmptyString
  end.

(** [sub in s] *)
Fixpoint contains (sub s : string) : bool :=
  prefix sub s ||
  match s with
  | EmptyString => false
  | String _ s' => contains sub s'
  end.

(** [s.split(sep, 1)]: one element when [sep] does not occur, otherwise
    the text before and the text after its first occurrence. *)
Fixpoint split1 (sep s : string) : list string :=
  if prefix sep s then [EmptyString; drop (String.length sep) s]
  else
    match s with
    | EmptyString => [EmptyString]
    | String c s' =>
        match split1 sep s' with
        | [a; b] => [String c a; b]
        | _ => [s]
        end
    end.

(** [sep.join(l)] *)
Fixpoint join (sep : string) (l : list string) : string :=
  match l with
  | [] => EmptyString
  | [x] => x
  | x :: rest => x ++ sep ++ join sep rest
  end.

(** [s.splitlines()]: a line ends at a line boundary, a carriage return
    followed by a line feed counts as one boundary, and the text after the
    last boundary is a line only when it is not empty.  [cur] is the line
    read so far. *)
Fixpoint splitlines_from (cur s : string) : list string :=
  match s with
  | EmptyString =>
      match cur with
      | EmptyString => []
      | _ => [cur]
      end
  | String c s' =>
      if islinebreak c then
        cur ::
        match c, s' with
        | "013"%char, String "010"%char s'' => splitlines_from EmptyString s''
        | _, _ => splitlines_from EmptyString s'
        end
      else splitlines_from (cur ++ String c EmptyString) s'
  end.

Definition splitlines (s : string) : list string :=
  splitlines_from EmptyString s.

End Str.

(* ------------------------------------------------------------------ *)
(** ** The fragment of [re] the program uses *)

Module Re.

(** A pattern is a sequence of items; quantifiers are greedy and apply
    to one-character atoms, which is all the program's patterns need. *)
Inductive item : Type :=
| One (p : ascii -> bool)      (* a literal, a class, [\s], [\d] or [.] *)
| Many (p : ascii -> bool)     (* atom followed by [*] *)
| Many1 (p : ascii -> bool)    (* atom followed by [+] *)
| GroupOpen                    (* [(] of group 1 *)
| GroupClose                   (* [)] of group 1 *)
| Bol                          (* [^] *)
| Eol.                         (* [$] *)

Definition pattern : Type := list item.

(** State of a match: the text where group 1 opened, and group 1. *)
Record captures : Type := mkCaptures {
  group_start : string;
  group1 : option string
}.

(** Greedy repetition with backtracking: take one more character first,
    and fall back to the continuation when the rest fails. *)
Fixpoint many {R : Type} (p : ascii -> bool) (k : string -> option R)
    (s : string) : option R :=
  match s with
  | String c s' =>
      if p c then
        match many p k s' with
        | Some r => Some r
        | None => k s
        end
      else k s
  | EmptyString => k s
  end.

(** [$] holds at the end of the text and before a final line feed. *)
Definition at_eol (s : string) : bool :=
  match s with
  | EmptyString => true
  | String "010"%char EmptyString => true
  | _ => false
  end.

(** [whole] is the text the match started on: [^] holds where nothing
    of it has been consumed. *)
Fixpoint exec (whole : string) (pat : pattern) (caps : captures)
    (s : string) : option captures :=
  match pat with
  | [] => Some caps
  | One p :: rest =>
      match s with
      | String c s' => if p c then exec whole rest caps s' else None
      | EmptyString => None
      end
  | Many p :: rest => many p (exec whole rest caps) s
  | Many1 p :: rest =>
      match s with
      | String c s' => if p c then many p (exec whole rest caps) s' else None
      | EmptyString => None
      end
  | GroupOpen :: rest => exec whole rest (mkCaptures s (group1 caps)) s
  | GroupClose :: rest =>
      let start := group_start caps in
      let text := substring 0 (String.length start - String.length s) start in
      exec whole rest (mkCaptures start (Some text)) s
  | Bol :: rest =>
      if Nat.eqb (String.length s) (String.length whole)
      then exec whole rest caps s else None
  | Eol :: rest => if at_eol s then exec whole rest caps s else None
  end.

(** [re.match(pat, s)]: [None], or the match object. *)
Definition re_match (pat : pattern) (s : string) : option captures :=
  exec s pat (mkCaptures s None) s.

(** [m.group(1).strip()] needs a [str]: a group that took no part in
    the match is [None], which has no [strip]. *)
Definition group_1 (m : captures) : result string :=
  match group1 m with
  | Some g => Return g
  | None => Raise AttributeError
  end.

(** [re.sub(p+, repl, s)] for a one-character atom [p]: every maximal
    run of [p] characters is replaced by [repl].  [in_run] tells that
    the previous character was part of a run. *)
Fixpoint sub_many1 (p : ascii -> bool) (repl : string) (in_run : bool)
    (s : string) : string :=
  match s with
  | EmptyString => EmptyString
  | String c s' =>
      if p c then
        if in_run then sub_many1 p repl true s'
        else repl ++ sub_many1 p repl true s'
      else String c (sub_many1 p repl false s')
  end.

(** Atoms: a literal under [re.IGNORECASE]; *)
Definition lit_i (c : ascii) : ascii -> bool :=
  fun x => Ascii.eqb (Str.lower_char x) (Str.lower_char c).
(** [.], which does not match a line feed; *)
Definition dot : ascii -> bool := fun x => negb (Ascii.eqb x "010"%char).
(** a class [[...]] of literals. *)
Definition one_of (cs : list ascii) : ascii -> bool :=
  fun x => existsb (Ascii.eqb x) cs.

End Re.

Import Re.

(* ------------------------------------------------------------------ *)
(** ** The fragment of [pathlib] the program uses (POSIX flavour) *)

Module Pathlib.

(** A pure path: its anchor ([""], ["/"] or ["//"]) and the components
    after it. *)
Record PurePath : Type := mkPath {
  anchor : string;
  tail : list string
}.

(** [p.parts] *)
Definition parts (p : PurePath) : list string :=
  match anchor p with
  | EmptyString => tail p
  | a => a :: tail p
  end.

(** [p.name] *)
Definition name (p : PurePath) : string := last (tail p) EmptyString.

(** [s.rfind(c)], [None] standing for -1. *)
Fixpoint rfind (c : ascii) (s : string) : option nat :=
  match s with
  | EmptyString => None
  | String x s' =>
      match rfind c s' with
      | Some i => Some (S i)
      | None => if Ascii.eqb x c then Some 0 else None
      end
  end.

(** [p.stem]: the name up to its last dot, unless that dot is the first
    or the last character of the name. *)
Definition stem (p : PurePath) : string :=
  let name := name p in
  match rfind "."%char name with
  | Some i =>
      if Nat.ltb 0 i && Nat.ltb i (String.length name - 1)
      then substring 0 i name else name
  | None => name
  end.

(** [l] without its prefix [pre], when [pre] is one. *)
Fixpoint strip_prefix (pre l : list string) : option (list string) :=
  match pre, l with
  | [], _ => Some l
  | x :: pre', y :: l' => if String.eqb x y then strip_prefix pre' l' else None
  | _ :: _, [] => None
  end.

(** [p.relative_to(other)]: [ValueError] unless [other] is [p] or one
    of its parents. *)
Definition relative_to (p other : PurePath) : result PurePath :=
  if String.eqb (anchor p) (anchor other) then
    match strip_prefix (tail other) (tail p) with
    | Some rest => Return (mkPath EmptyString rest)
    | None => Raise ValueError
    end
  else Raise ValueError.

(** Splitting at every occurrence of a character. *)
Fixpoint split_on (sep : ascii) (s : string) : list string :=
  match s with
  | EmptyString => [EmptyString]
  | String c s' =>
      if Ascii.eqb c sep then EmptyString :: split_on sep s'
      else
        match split_on sep s' with
        | h :: t => String c h :: t
        | [] => [String c EmptyString]
        end
  end.

Definition is_component (s : string) : bool :=
  negb (String.eqb s "") && negb (String.eqb s ".").

(** [PurePosixPath(s)]: empty and ["."] components are dropped; exactly
    two leading slashes make the anchor ["//"], any other number ["/"]. *)
Definition Path (s : string) : PurePath :=
  let anchor :=
    match s with
    | String "/" (String "/" (String "/" _)) => "/"
    | String "/" (String "/" _) => "//"
    | String "/" _ => "/"
    | _ => ""
    end in
  mkPath anchor (filter is_component (split_on "/"%char s)).

End Pathlib.

Import Pathlib.

(* ------------------------------------------------------------------ *)
(** ** Helpers of [lyricfinder.py] *)

(** [re.sub(r"\s+", " ", s or "").strip().lower()]; every caller
    passes a [str], for which [s or ""] is [s]. *)
Definition normalize (s : string) : string :=
  Str.lower (Str.strip (sub_many1 Str.isspace " " false s)).

(** [r"^cd\s*\d+$"] with [re.IGNORECASE] *)
Definition DISC_RE : pattern :=
  [Bol; One (lit_i "c"); One (lit_i "d"); Many Str.isspace;
   Many1 Str.isdigit; Eol].

(** [r"^\s*\d+\s*[-_.]\s*(.+)$"] *)
Definition TRACK_RE : pattern :=
  [Bol; Many Str.isspace; Many1 Str.isdigit; Many Str.isspace;
   One (one_of ["-"; "_"; "."]%char); Many Str.isspace;
   GroupOpen; Many1 dot; GroupClose; Eol].

Definition is_match (m : option captures) : bool :=
  match m with
  | Some _ => true
  | None => false
  end.

Definition identity : Type := option string * option string * option string.

(** [infer_from_path(path, library_root)]: (artist, title, album). *)
Definition infer_from_path (path library_root : PurePath) : result identity :=
  rel_parts <- try_except
                 (rel <- relative_to path library_root ;; Return (parts rel))
                 is_ValueError
                 (Return (parts path)) ;;
  artist <- (if Nat.leb 1 (List.length rel_parts)
             then a <- getitem rel_parts 0 ;; Return (Some a)
             else Return None) ;;
  album <- (if Nat.leb 2 (List.length rel_parts) then
              album <- getitem rel_parts 1 ;;
              if Nat.leb 3 (List.length rel_parts) then
                disc <- getitem rel_parts 2 ;;
                if is_match (re_match DISC_RE disc)
                then Return (Some (album ++ " " ++ disc))
                else Return (Some album)
              else Return (Some album)
            else Return None) ;;
  let stem := stem path in
  let stem_clean := Str.replace "_" " " stem in
  title <- match re_match TRACK_RE stem_clean with
           | Some m => g <- group_1 m ;; Return (Some (Str.strip g))
           | None => Return (Some (Str.strip stem_clean))
           end ;;
  both <- (if Str.contains " - " stem_clean && negb (truthy artist) then
             match Str.split1 " - " stem_clean with
             | [maybe_artist; maybe_title] =>
                 Return (Some (Str.strip maybe_artist),
                         or_else (Some (Str.strip maybe_title)) title)
             | _ => Raise ValueError
             end
           else Return (artist, title)) ;;
  Return (or_None (fst both), or_None (snd both), or_None album).

(* ------------------------------------------------------------------ *)
(** ** Tags: what [mutagen] hands to the program *)

(** The value of [audio.info.length], a float. *)
Inductive pyfloat : Type :=
| Finite (q : Q)
| Infinite
| NaN.

(** [round(q)]: to the nearest integer, ties to the even one. *)
Definition round_half_even (q : Q) : Z :=
  let f := Qfloor q in
  match Qcompare (q - inject_Z f) (1 # 2) with
  | Lt => f
  | Gt => (f + 1)%Z
  | Eq => if Z.even f then f else (f + 1)%Z
  end.

(** [int(round(x))] *)
Definition int_round (x : pyfloat) : result Z :=
  match x with
  | Finite q => Return (round_half_even q)
  | Infinite => Raise OverflowError
  | NaN => Raise ValueError
  end.

(** A value stored under a tag key. *)
Inductive tag_value : Type :=
| TagList (l : list string)
| TagStr (s : string)
| TagOther.

(** [audio.info]; [length] is [None] when the attribute is missing. *)
Record stream_info : Type := mkInfo {
  length : option pyfloat
}.

(** The object [MutagenFile] returns. *)
Record audio_file : Type := mkAudio {
  tags : option (list (string * tag_value));
  info : option stream_info
}.

(** [d.get(key)] *)
Fixpoint dict_get {V : Type} (d : list (string * V)) (key : string)
    : option V :=
  match d with
  | [] => None
  | (k, v) :: d' => if String.eqb k key then Some v else dict_get d' key
  end.

(** The local function [first] of [get_metadata]. *)
Definition first (tags : list (string * tag_value)) (key : string)
    : option string :=
  match dict_get tags key with
  | Some (TagList (x :: _)) => Some x
  | Some (TagStr v) => Some v
  | _ => None
  end.

Definition metadata : Type :=
  option string * option string * option string * option Z.

Section TagReader.

(** [MutagenFile(path, easy=True)]: raises, returns [None] for a file
    it does not recognise, or returns the file's tags and stream info. *)
Variable MutagenFile : PurePath -> result (option audio_file).

(** [get_metadata(path, library_root)]: (artist, title, album, duration). *)
Definition get_metadata (path library_root : PurePath) : result metadata :=
  audio <- try_except (MutagenFile path) is_Exception (Return None) ;;
  read <- match audio with
          | Some audio =>
              (* audio.tags or {} *)
              let tags := match tags audio with
                          | Some (t :: ts) => t :: ts
                          | _ => []
                          end in
              let title := first tags "title" in
              let artist := first tags "artist" in
              let album := first tags "album" in
              duration <- try_except
                            match info audio with
                            | Some i =>
                                match length i with
                                | Some len =>
                                    d <- int_round len ;; Return (Some d)
                                | None => Return None
                                end
                            | None => Return None
                            end
                            is_Exception
                            (Return None) ;;
              Return (artist, title, album, duration)
          | None => Return (None, None, None, None)
          end ;;
  let '(artist, title, album, duration) := read in
  inferred <- infer_from_path path library_root ;;
  let '(inf_artist, inf_title, inf_album) := inferred in
  let artist := if negb (truthy artist) then inf_artist else artist in
  let title := if negb (truthy title) then inf_title else title in
  let album := if negb (truthy album) then inf_album else album in
  Return (artist, title, album, duration).

End TagReader.

(* ------------------------------------------------------------------ *)
(** ** Lookup results *)

(** One entry of the list LRCLIB answers with; a field is [None] when
    the key is missing or its value is null. *)
Record candidate : Type := mkCandidate {
  trackName : option string;
  name : option string;
  artistName : option string;
  instrumental : option bool;
  syncedLyrics : option string;
  plainLyrics : option string
}.

(** The body of the loop of [choose_best_result] up to [score]. *)
Definition score (norm_title norm_artist : string) (r : candidate) : nat :=
  let r_title := normalize (or_str (or_else (trackName r) (name r)) "") in
  let r_artist := normalize (or_str (artistName r) "") in
  let title_match :=
    negb (String.eqb norm_title "") && String.eqb r_title norm_title in
  let artist_match :=
    negb (String.eqb norm_artist "") && String.eqb r_artist norm_artist in
  if title_match && artist_match then 2
  else if title_match || artist_match then 1
  else 0.

(** One turn of the loop: [best] is replaced when there is none yet or
    the score is higher. *)
Definition keep_best (norm_title norm_artist : string)
    (best : option (nat * candidate)) (r : candidate)
    : option (nat * candidate) :=
  let score := score norm_title norm_artist r in
  match best with
  | None => Some (score, r)
  | Some (best_score, _) =>
      if Nat.ltb best_score score then Some (score, r) else best
  end.

(** [choose_best_result(results, title, artist)] *)
Definition choose_best_result (results : list candidate)
    (title artist : option string) : option candidate :=
  match results with
  | [] => None
  | first_result :: _ =>
      if negb (truthy title) && negb (truthy artist) then Some first_result
      else
        let norm_title := normalize (or_str title "") in
        let norm_artist := normalize (or_str artist "") in
        let best := fold_left (keep_best norm_title norm_artist) results None in
        match best with
        | Some (_, r) => Some r
        | None => Some first_result
        end
  end.

(** The body LRCLIB answers with, decoded: a list of objects of the
    shape of [candidate], or anything else that is not a list.  A list
    with entries of another shape is outside this type. *)
Inductive json_body : Type :=
| JsonList (results : list candidate)
| JsonOther.

(** Truth value of [best.get("instrumental")]. *)
Definition is_true (o : option bool) : bool :=
  match o with
  | Some b => b
  | None => false
  end.

(** The end of [fetch_lyrics_from_lrclib], from the instrumental test
    on: what it returns for the chosen result. *)
Definition lyrics_of (best : candidate) : option string * bool :=
  if is_true (instrumental best) then (None, false)
  else
    let synced := or_str (syncedLyrics best) "" in
    let plain := or_str (plainLyrics best) "" in
    if negb (String.eqb (Str.strip synced) "") then (Some synced, true)
    else if negb (String.eqb (Str.strip plain) "") then (Some plain, false)
    else (None, false).

(** [params["q"]] as [fetch_lyrics_from_lrclib] fills it in; [None]
    when the key is not set. *)
Definition search_query (artist title : option string) : option string :=
  if truthy artist && truthy title
  then Some (or_empty artist ++ " " ++ or_empty title)
  else if truthy title then title
  else if truthy artist then artist
  else None.

Section Lookup.

(** [session.get(url, params, timeout)], [raise_for_status] and [json]
    together: the request with query [q] raises or yields a body. *)
Variable search : option string -> result json_body.

(** [fetch_lyrics_from_lrclib(session, artist, title, album, duration,
    logger)]: (lyrics_text, is_synced). *)
Definition fetch_lyrics_from_lrclib (artist title : option string)
    : result (option string * bool) :=
  if negb (truthy title) && negb (truthy artist) then Return (None, false)
  else
    let q := search_query artist title in
    response <- try_except (body <- search q ;; Return (Some body))
                  is_Exception (Return None) ;;
    match response with
    | Some (JsonList (r :: rs)) =>
        match choose_best_result (r :: rs) title artist with
        | Some best => Return (lyrics_of best)
        | None => Return (None, false)
        end
    | _ => Return (None, false)
    end.

End Lookup.

(* ------------------------------------------------------------------ *)
(** ** Rendering *)

Definition newline : string := String "010"%char EmptyString.

(** The loop of [make_unsynced_lrc]: [out_lines.append] for each line. *)
Definition stamp_lines (lines : list string) : list string :=
  fold_left
    (fun out_lines line =>
       if negb (String.eqb (Str.strip line) "")
       then app out_lines ["[00:00.00] " ++ line]
       else app out_lines [""])
    lines [].

(** [make_unsynced_lrc(plain_lyrics)] *)
Definition make_unsynced_lrc (plain_lyrics : string) : string :=
  let lines := Str.splitlines plain_lyrics in
  let out_lines := stamp_lines lines in
  Str.rstrip (Str.join newline out_lines) ++ newline.

(* ------------------------------------------------------------------ *)
(** ** Vocabulary of the specification *)

(** Every character of [s] satisfies [p]. *)
Fixpoint all_chars (p : ascii -> bool) (s : string) : bool :=
  match s with
  | EmptyString => true
  | String c s' => p c && all_chars p s'
  end.

(** [s] contains at least one non-whitespace character. *)
Definition has_nonspace (s : string) : bool :=
  negb (all_chars Str.isspace s).

(** An optional text that is absent or holds whitespace only. *)
Definition blank (o : option string) : bool :=
  match o with
  | Some s => all_chars Str.isspace s
  | None => true
  end.

(** A disc subfolder name in the words of the specification: the
    letters c and d in either case, optional whitespace, one or more
    digits. *)
Definition disc_token (s : string) : Prop :=
  exists c d ws ds,
    s = String c (String d (ws ++ ds)) /\
    (c = "c"%char \/ c = "C"%char) /\
    (d = "d"%char \/ d = "D"%char) /\
    all_chars Str.isspace ws = true /\
    ds <> "" /\
    all_chars Str.isdigit ds = true.

(** The ordered preference of the resolver: the tag value when present
    and not empty, else the inferred value. *)
Definition prefer (tag inferred : option string) : option string :=
  match tag with
  | Some EmptyString => inferred
  | Some s => Some s
  | None => inferred
  end.

(** The tag-derived value of a field: absent when no file was read. *)
Definition tag_field (audio : option audio_file) (key : string)
    : option string :=
  match audio with
  | Some a =>
      match tags a with
      | Some t => first t key
      | None => None
      end
  | None => None
  end.

(** Normalized equality against a query field; an empty normalized
    query field matches nothing. *)
Definition field_matches (norm_query : string) (field : option string)
    : bool :=
  match norm_query with
  | EmptyString => false
  | _ => String.eqb (normalize (or_empty field)) norm_query
  end.

(** The name a candidate is compared by: [trackName], else [name]. *)
Definition candidate_title (r : candidate) : option string :=
  or_else (trackName r) (name r).

(** The score of the specification: 2 when both equalities hold, 1
    when exactly one holds, 0 otherwise. *)
Definition match_score (title artist : option string) (r : candidate)
    : nat :=
  match field_matches (normalize (or_empty title)) (candidate_title r),
        field_matches (normalize (or_empty artist)) (artistName r) with
  | true, true => 2
  | false, false => 0
  | _, _ => 1
  end.



(** One rendered line: the marker and the text, or nothing for a blank
    line. *)
Definition stamp (line : string) : string :=
  if all_chars Str.isspace line then "" else "[00:00.00] " ++ line.


(** The two candidates of the specification's selection example. *)
Definition candidate_A_X : candidate :=
  mkCandidate (Some "A") None (Some "X") None None (Some "la la").
Definition candidate_B_Y : candidate :=
  mkCandidate (Some "B") None (Some "Y") None (Some "[00:01.00] la") None.

(** A file with a title tag, an empty artist tag and no album tag,
    200.5 seconds long; a tag reader that returns it, and one that
    fails. *)
Definition tagged_audio : audio_file :=
  mkAudio (Some [("title", TagList ["Tagged Title"]); ("artist", TagStr "")])
          (Some (mkInfo (Some (Finite (2005 # 10))))).

Definition reader_tagged (_ : PurePath) : result (option audio_file) :=
  Return (Some tagged_audio).

Definition reader_failing (_ : PurePath) : result (option audio_file) :=
  Raise MutagenError.



(* ------------------------------------------------------------------ *)
(** ** Writing the lyrics files

    The file system is a map from paths to the text of the regular files
    that exist; a path names one file.  Log records and the pause between
    requests are left out. *)

Definition AUDIO_EXTS : list string :=
  [".flac"; ".mp3"; ".m4a"; ".aac"; ".ogg"; ".wav"].

(** [p.suffix]: the name from its last dot on, unless that dot is the
    first or the last character of the name. *)
Definition suffix (p : PurePath) : string :=
  let name := Pathlib.name p in
  match rfind "."%char name with
  | Some i =>
      if Nat.ltb 0 i && Nat.ltb i (String.length name - 1)
      then Str.drop i name else ""
  | None => ""
  end.

(** [p.with_suffix(suffix)] *)
Definition with_suffix (p : PurePath) (new_suffix : string)
    : result PurePath :=
  if Str.contains "/" new_suffix then Raise ValueError
  else if (negb (String.eqb new_suffix "") && negb (prefix "." new_suffix))
          || String.eqb new_suffix "."
  then Raise ValueError
  else
    let name := Pathlib.name p in
    if String.eqb name "" then Raise ValueError
    else
      let old_suffix := suffix p in
      let name :=
        if String.eqb old_suffix "" then name ++ new_suffix
        else substring 0 (String.length name - String.length old_suffix) name
             ++ new_suffix in
      Return (mkPath (anchor p) (removelast (tail p) ++ [name])%list).

Fixpoint parts_eqb (l1 l2 : list string) : bool :=
  match l1, l2 with
  | [], [] => true
  | x :: l1', y :: l2' => String.eqb x y && parts_eqb l1' l2'
  | _, _ => false
  end.

(** [p == q] *)
Definition path_eqb (p q : PurePath) : bool :=
  String.eqb (anchor p) (anchor q) && parts_eqb (tail p) (tail q).

Definition files : Type := PurePath -> option string.

(** [p.exists()] *)
Definition file_exists (fs : files) (p : PurePath) : bool :=
  match fs p with
  | Some _ => true
  | None => false
  end.

(** The file system after [p.write_text(content)] succeeded. *)
Definition write_text (fs : files) (p : PurePath) (content : string)
    : files :=
  fun q => if path_eqb q p then Some content else fs q.

(** The text [write_lrc_for_track] writes. *)
Definition lrc_content (lyrics : string) (is_synced : bool) : string :=
  if is_synced then Str.rstrip lyrics ++ newline
  else make_unsynced_lrc lyrics.

Section Driver.

Variable MutagenFile : PurePath -> result (option audio_file).
Variable search : option string -> result json_body.

(** The exception [write_text] raises for a path and a text, if any; a
    write that raises leaves the file system as it was. *)
Variable write_error : PurePath -> string -> option exn.

(** [write_lrc_for_track(track_path, lyrics, is_synced, overwrite,
    logger)], as the file system it leaves. *)
Definition write_lrc_for_track (fs : files) (track_path : PurePath)
    (lyrics : string) (is_synced overwrite : bool) : result files :=
  lrc_path <- with_suffix track_path ".lrc" ;;
  if file_exists fs lrc_path && negb overwrite then Return fs
  else
    let content := lrc_content lyrics is_synced in
    try_except
      match write_error lrc_path content with
      | Some e => Raise e
      | None => Return (write_text fs lrc_path content)
      end
      is_Exception
      (Return fs).

(** One turn of the loop of [process_library]; [is_file] is what
    [path.is_file()] answers. *)
Definition process_file (root : PurePath) (overwrite : bool) (fs : files)
    (entry : PurePath * bool) : result files :=
  let (path, is_file) := entry in
  if negb is_file then Return fs
  else if prefix "._" (Pathlib.name path) then Return fs
  else if negb (existsb (String.eqb (Str.lower (suffix path))) AUDIO_EXTS)
  then Return fs
  else
    lrc_path <- with_suffix path ".lrc" ;;
    if file_exists fs lrc_path && negb overwrite then Return fs
    else
      md <- get_metadata MutagenFile path root ;;
      let '(artist, title, album, duration) := md in
      found <- fetch_lyrics_from_lrclib search artist title ;;
      let '(lyrics, is_synced) := found in
      if negb (truthy lyrics) then Return fs
      else write_lrc_for_track fs path (or_empty lyrics) is_synced overwrite.

(** [process_library(root, overwrite, logger)] over the entries
    [root.rglob("*")] yields: the file system it leaves, and the
    exception that ended it, if any. *)
Fixpoint process_library (root : PurePath) (overwrite : bool)
    (listing : list (PurePath * bool)) (fs : files)
    : files * option exn :=
  match listing with
  | [] => (fs, None)
  | entry :: rest =>
      match process_file root overwrite fs entry with
      | Return fs' => process_library root overwrite rest fs'
      | Raise e => (fs, Some e)
      end
  end.

End Driver.

(** [s] has no trailing whitespace, is not empty, and is followed by
    one line feed. *)
Definition well_ended (content : string) : Prop :=
  exists body,
    content = body ++ newline /\ Str.rstrip body = body /\ body <> "".

(** Whitespace in [s] is the space character only, never twice in a
    row, and not first when [after_space] holds. *)
Fixpoint single_spaced (after_space : bool) (s : string) : bool :=
  match s with
  | EmptyString => true
  | String c s' =>
      if Str.isspace c
      then Ascii.eqb c " " && negb after_space && single_spaced true s'
      else single_spaced false s'
  end.

(** [r"^\s*\d+\s*[-.]\s*(.+)$"]: the track pattern without the
    underscore among the separators. *)
Definition TRACK_RE_no_underscore : pattern :=
  [Bol; Many Str.isspace; Many1 Str.isdigit; Many Str.isspace;
   One (one_of ["-"; "."]%char); Many Str.isspace;
   GroupOpen; Many1 dot; GroupClose; Eol].

Definition not_underscore (c : ascii) : bool := negb (Ascii.eqb c "_").

(** An empty file system, and one that holds a lyrics file. *)
Definition no_files : files := fun _ => None.

Definition one_lrc : files :=
  write_text no_files (Path "/music/artist/album/01 - song.lrc") "kept".

(** A lookup that answers with the two example candidates. *)
Definition search_example (_ : option string) : result json_body :=
  Return (JsonList [candidate_A_X; candidate_B_Y]).

Definition never_fails (_ : PurePath) (_ : string) : option exn := None.

(** A lookup whose request fails. *)
Definition search_failing (_ : option string) : result json_body :=
  Raise RequestException.

(** What [rglob] yields for a small library: a track, a resource-fork
    file beside it, and their directory. *)
Definition example_listing : list (PurePath * bool) :=
  [(Path "/music/artist/album", false);
   (Path "/music/artist/album/._01 - song.flac", true);
   (Path "/music/artist/album/01 - song.flac", true)].

(* ------------------------------------------------------------------ *)
(** ** Normalized equality in the words of the specification *)

(** [s] begins with a character that is not whitespace. *)
Definition starts_word (s : string) : bool :=
  match s with
  | String c _ => negb (Str.isspace c)
  | EmptyString => false
  end.

(** The words of a text: its maximal runs of characters that are not
    whitespace, in order. *)
Fixpoint words (s : string) : list string :=
  match s with
  | EmptyString => []
  | String c s' =>
      if Str.isspace c then words s'
      else if starts_word s' then
        match words s' with
        | w :: ws => String c w :: ws
        | [] => [String c EmptyString]
        end
      else String c EmptyString :: words s'
  end.

(** A text with its whitespace runs collapsed to single spaces, its
    ends trimmed and its case folded: its words in lower case, one space
    between them. *)
Definition spec_normalize (s : string) : string :=
  Str.join " " (map Str.lower (words s)).

(** Normalized equality of a field with a query field; a query field
    that is absent or normalizes to the empty text matches nothing. *)
Definition spec_field_matches (query field : option string) : bool :=
  negb (String.eqb (spec_normalize (or_empty query)) "")
  && String.eqb (spec_normalize (or_empty field))
                (spec_normalize (or_empty query)).

(** 2 when both equalities hold, 1 when exactly one holds, 0
    otherwise. *)
Definition spec_score (title artist : option string) (r : candidate)
    : nat :=
  match spec_field_matches title (candidate_title r),
        spec_field_matches artist (artistName r) with
  | true, true => 2
  | false, false => 0
  | _, _ => 1
  end.

(** A result flagged instrumental that carries lyrics all the same. *)
Definition candidate_instrumental : candidate :=
  mkCandidate (Some "I") None (Some "Z") (Some true)
              (Some "[00:01.00] x") (Some "x").


(* ------------------------------------------------------------------ *)
(** ** Strings *)

Section StringFacts.

Lemma append_empty_r (s : string) : s ++ "" = s.
Proof. induction s as [|c s IH]; simpl; [reflexivity | now rewrite IH]. Qed.

Lemma append_assoc (a b c : string) : (a ++ b) ++ c = a ++ (b ++ c).
Proof. induction a as [|x a IH]; simpl; [reflexivity | now rewrite IH]. Qed.

Lemma rstrip_all_space (s : string) :
  all_chars Str.isspace s = true -> Str.rstrip s = "".
Proof.
  induction s as [|c s IH]; simpl; intros H; [reflexivity|].
  apply andb_true_iff in H as [Hc Hs].
  now rewrite (IH Hs), Hc.
Qed.

Lemma rstrip_not_blank (s : string) :
  Str.rstrip s <> "" -> all_chars Str.isspace (Str.rstrip s) = false.
Proof.
  induction s as [|c s IH]; simpl; intros H; [congruence|].
  destruct (Str.rstrip s) as [|x r] eqn:E.
  - destruct (Str.isspace c) eqn:Ec; [congruence|].
    simpl. now rewrite Ec.
  - change (Str.isspace c && all_chars Str.isspace (String x r) = false).
    rewrite IH by congruence. apply andb_false_r.
Qed.

Lemma rstrip_empty_inv (s : string) :
  Str.rstrip s = "" -> all_chars Str.isspace s = true.
Proof.
  induction s as [|c s IH]; simpl; intros H; [reflexivity|].
  destruct (Str.rstrip s) as [|x r] eqn:E; [|discriminate].
  destruct (Str.isspace c); [|discriminate].
  now rewrite IH.
Qed.

Lemma lstrip_empty_inv (s : string) :
  Str.lstrip s = "" -> all_chars Str.isspace s = true.
Proof.
  induction s as [|c s IH]; simpl; intros H; [reflexivity|].
  destruct (Str.isspace c); [now apply IH | discriminate].
Qed.

(** [strip] leaves nothing exactly when the text is whitespace. *)
Lemma strip_empty_iff (s : string) :
  Str.strip s = "" <-> all_chars Str.isspace s = true.
Proof.
  unfold Str.strip. split; intros H.
  - apply rstrip_empty_inv.
    destruct (Str.rstrip s) as [|x r] eqn:E; [reflexivity|].
    apply lstrip_empty_inv in H.
    rewrite <- E in H. rewrite rstrip_not_blank in H; [discriminate|].
    rewrite E. discriminate.
  - now rewrite rstrip_all_space.
Qed.

Lemma strip_eqb_empty (s : string) :
  String.eqb (Str.strip s) "" = all_chars Str.isspace s.
Proof.
  destruct (all_chars Str.isspace s) eqn:E.
  - apply strip_empty_iff in E. now rewrite E.
  - apply String.eqb_neq. intros H. apply strip_empty_iff in H. congruence.
Qed.

Lemma rstrip_idempotent (s : string) :
  Str.rstrip (Str.rstrip s) = Str.rstrip s.
Proof.
  induction s as [|c s IH]; simpl; [reflexivity|].
  destruct (Str.rstrip s) as [|x r] eqn:E.
  - destruct (Str.isspace c) eqn:Ec; simpl; [reflexivity | now rewrite Ec].
  - change (Str.rstrip (String c (String x r))) with
      (match Str.rstrip (String x r) with
       | "" => if Str.isspace c then "" else String c ""
       | r' => String c r'
       end).
    now rewrite IH.
Qed.

Lemma rstrip_append_space (s w : string) :
  all_chars Str.isspace w = true -> Str.rstrip (s ++ w) = Str.rstrip s.
Proof.
  intros Hw. induction s as [|c s IH]; simpl.
  - now apply rstrip_all_space.
  - now rewrite IH.
Qed.

End StringFacts.

(* ------------------------------------------------------------------ *)
(** ** Matching *)

Section MatchFacts.

Context {R : Type}.

(** A successful repetition ends in a successful continuation. *)
Lemma many_inv (p : ascii -> bool) (k : string -> option R) (s : string)
    (r : R) :
  many p k s = Some r -> exists s', k s' = Some r.
Proof.
  induction s as [|c s IH]; simpl; intros H.
  - now exists "".
  - destruct (p c).
    + destruct (many p k s) as [r'|] eqn:E.
      * inversion H; subst. now apply IH.
      * now exists (String c s).
    + now exists (String c s).
Qed.

(** A repetition succeeds on a run of matching characters followed by
    a text the continuation accepts. *)
Lemma many_complete (p : ascii -> bool) (k : string -> option R)
    (a b : string) :
  all_chars p a = true -> k b <> None -> many p k (a ++ b) <> None.
Proof.
  induction a as [|c a IH]; simpl; intros Ha Hk.
  - destruct b as [|x b]; simpl; [assumption|].
    destruct (p x); [|assumption].
    destruct (many p k b); [discriminate | assumption].
  - apply andb_true_iff in Ha as [Hc Ha]. rewrite Hc.
    specialize (IH Ha Hk).
    destruct (many p k (a ++ b)); [discriminate | contradiction].
Qed.

End MatchFacts.

(** Once the pattern closes group 1, a match has a group 1. *)
Lemma exec_group1 (pat : pattern) :
  forall whole caps s m,
    exec whole pat caps s = Some m ->
    In GroupClose pat \/ group1 caps <> None ->
    group1 m <> None.
Proof.
  induction pat as [|it rest IH]; intros whole caps s m H Hc.
  - simpl in H. inversion H; subst.
    destruct Hc as [[]|Hc]; assumption.
  - assert (Hrest : forall caps' s',
               exec whole rest caps' s' = Some m ->
               group1 caps' = group1 caps -> it <> GroupClose ->
               group1 m <> None).
    { intros caps' s' H' Hg Hne. apply (IH whole caps' s' m H').
      destruct Hc as [[Hc|Hc]|Hc]; [congruence | now left | right; congruence]. }
    destruct it; simpl in H.
    + destruct s as [|c s]; [discriminate|].
      destruct (p c); [|discriminate].
      now apply (Hrest caps s).
    + apply many_inv in H as [s' H]. now apply (Hrest caps s').
    + destruct s as [|c s]; [discriminate|].
      destruct (p c); [|discriminate].
      apply many_inv in H as [s' H]. now apply (Hrest caps s').
    + now apply (Hrest _ _ H).
    + apply (IH _ _ _ _ H). right. simpl. discriminate.
    + destruct (Nat.eqb _ _); [|discriminate]. now apply (Hrest caps s).
    + destruct (at_eol s); [|discriminate]. now apply (Hrest caps s).
Qed.

Lemma track_match_group1 (s : string) (m : captures) :
  re_match TRACK_RE s = Some m -> exists g, group_1 m = Return g.
Proof.
  intros H. unfold re_match in H.
  apply exec_group1 in H.
  - unfold group_1. destruct (group1 m) as [g|]; [now exists g | contradiction].
  - left. unfold TRACK_RE. simpl. tauto.
Qed.

(** A disc subfolder name of the specification matches the pattern. *)
Lemma disc_token_matches (s : string) :
  disc_token s -> is_match (re_match DISC_RE s) = true.
Proof.
  intros (c & d & ws & ds & -> & Hc & Hd & Hws & Hne & Hds).
  assert (Hm : re_match DISC_RE (String c (String d (ws ++ ds))) <> None).
  { unfold re_match, DISC_RE. cbn [exec]. rewrite Nat.eqb_refl.
    assert (Ec : lit_i "c" c = true) by (destruct Hc; subst; reflexivity).
    assert (Ed : lit_i "d" d = true) by (destruct Hd; subst; reflexivity).
    rewrite Ec, Ed.
    apply many_complete; [assumption|].
    destruct ds as [|x ds]; [congruence|].
    simpl in Hds. apply andb_true_iff in Hds as [Hx Hds]. rewrite Hx.
    rewrite <- (append_empty_r ds).
    apply many_complete; [assumption|]. simpl. discriminate. }
  destruct (re_match DISC_RE _); [reflexivity | congruence].
Qed.

Lemma split1_contains (sep s : string) :
  Str.contains sep s = true -> exists a b, Str.split1 sep s = [a; b].
Proof.
  induction s as [|c s IH]; intros H.
  - cbn [Str.contains Str.split1] in *.
    destruct (prefix sep ""); [eauto | discriminate].
  - cbn [Str.contains] in H. cbn [Str.split1].
    destruct (prefix sep (String c s)); [eauto|].
    simpl in H. destruct (IH H) as (a & b & ->). eauto.
Qed.

(* ------------------------------------------------------------------ *)
(** ** The Identity Inferencer *)

Lemma strip_prefix_app (pre rest : list string) :
  strip_prefix pre (pre ++ rest)%list = Some rest.
Proof.
  induction pre as [|x pre IH]; simpl; [reflexivity|].
  now rewrite String.eqb_refl.
Qed.

(** A path below the library root is relative to it. *)
Lemma relative_to_under (root : PurePath) (rest : list string) :
  relative_to (mkPath (anchor root) (tail root ++ rest)%list) root
  = Return (mkPath "" rest).
Proof.
  unfold relative_to. simpl.
  now rewrite String.eqb_refl, strip_prefix_app.
Qed.

(** The relative parts are always obtained: the only exception
    [relative_to] raises is the one the program catches. *)
Lemma rel_parts_returns (path root : PurePath) :
  exists l,
    try_except (rel <- relative_to path root ;; Return (parts rel))
      is_ValueError (Return (parts path)) = Return l.
Proof.
  unfold relative_to.
  destruct (String.eqb _ _); [destruct (strip_prefix _ _)|]; simpl; eauto.
Qed.

(** Splits on the two places where the title and the artist are
    decided, discharging the branches that cannot raise. *)
Ltac title_cases :=
  match goal with
  | |- context [re_match TRACK_RE ?s] =>
      let Em := fresh "Em" in
      let g := fresh "g" in
      let Eg := fresh "Eg" in
      destruct (re_match TRACK_RE s) eqn:Em;
      [ destruct (track_match_group1 _ _ Em) as [g Eg]; rewrite Eg | ];
      cbn [bind]
  end;
  match goal with
  | |- context [Str.contains ?sep ?s && ?b] =>
      let Ec := fresh "Ec" in
      let x := fresh "x" in
      let y := fresh "y" in
      let Es := fresh "Es" in
      destruct (Str.contains sep s && b) eqn:Ec;
      [ apply andb_true_iff in Ec as [Ec _];
        destruct (split1_contains _ _ Ec) as (x & y & Es); rewrite Es | ];
      cbn [bind fst snd]
  end.

(** The inferencer always returns, and each field it returns went
    through [or None]. *)
Lemma infer_from_path_returns (path root : PurePath) :
  exists a t al,
    infer_from_path path root = Return (or_None a, or_None t, or_None al).
Proof.
  unfold infer_from_path.
  destruct (rel_parts_returns path root) as [l ->]. cbn [bind].
  destruct l as [|a [|b [|c l]]]; cbn [List.length Nat.leb getitem nth_error bind].
  - title_cases; eauto.
  - title_cases; eauto.
  - title_cases; eauto.
  - destruct (is_match (re_match DISC_RE c)); cbn [bind]; title_cases; eauto.
Qed.

Lemma or_None_not_empty (o : option string) : or_None o <> Some "".
Proof. destruct o as [[|c s]|]; unfold or_None; simpl; discriminate. Qed.

(** Below the root the first relative part is the artist, whatever the
    file is called: the split of the stem at [" - "] is not reached. *)
Lemma infer_artist_is_first_part (root : PurePath) (c : ascii)
    (first_part : string) (rest : list string) :
  exists t al,
    infer_from_path
      (mkPath (anchor root) (tail root ++ String c first_part :: rest)%list)
      root
    = Return (Some (String c first_part), t, al).
Proof.
  unfold infer_from_path. rewrite relative_to_under.
  cbn [bind try_except parts anchor tail].
  destruct rest as [|b [|d l]];
    cbn [List.length Nat.leb getitem nth_error bind truthy negb andb];
    try (destruct (is_match (re_match DISC_RE d)); cbn [bind]);
    rewrite andb_false_r;
    match goal with
    | |- context [re_match TRACK_RE ?s] =>
        let Em := fresh "Em" in
        destruct (re_match TRACK_RE s) eqn:Em;
        [ destruct (track_match_group1 _ _ Em) as [g ->] | ]
    end; cbn [bind fst snd]; eauto.
Qed.

(** C1 (the code at the failing input): for the file
    ["Artist Name - Song Title.ext"] directly under the library root, the
    inferencer returns the file name as artist and the whole stem as
    title; the stem is not split at [" - "]. *)
Theorem infer_from_path_artist_title_file :
  infer_from_path (Path "/music/Artist Name - Song Title.ext")
    (Path "/music")
  = Return (Some "Artist Name - Song Title.ext",
            Some "Artist Name - Song Title", None).
Proof. vm_compute. reflexivity. Qed.

(** The split at [" - "] is reached only when the path has no part
    relative to the root, as when the file itself is given as the root. *)
Example infer_from_path_split_reached :
  infer_from_path (Path "/music/Artist Name - Song Title.ext")
    (Path "/music/Artist Name - Song Title.ext")
  = Return (Some "Artist Name", Some "Song Title", None).
Proof. vm_compute. reflexivity. Qed.

(** C2 (the code at the three file names): the prefixes ["01 - "] and
    ["01."] are stripped, and ["01_Song Name.ext"] yields the title
    ["01 Song Name"], its underscore having become a space before the
    prefix is looked for. *)
Theorem infer_from_path_track_prefixes :
  infer_from_path (Path "/music/artist/album/01 - Song Name.ext")
    (Path "/music")
  = Return (Some "artist", Some "Song Name", Some "album") /\
  infer_from_path (Path "/music/artist/album/01.Song Name.ext")
    (Path "/music")
  = Return (Some "artist", Some "Song Name", Some "album") /\
  infer_from_path (Path "/music/artist/album/01_Song Name.ext")
    (Path "/music")
  = Return (Some "artist", Some "01 Song Name", Some "album").
Proof. repeat split; vm_compute; reflexivity. Qed.

(** C8, as stated, at [artist/album/cd2/song.ext]: the album is
    ["album cd2"], in the case of the path, and not ["album CD2"]. *)
Lemma infer_album_cd2_lowercase :
  infer_from_path (Path "/music/artist/album/cd2/song.ext") (Path "/music")
  = Return (Some "artist", Some "song", Some "album cd2") /\
  ~ (exists a t,
       infer_from_path (Path "/music/artist/album/cd2/song.ext")
         (Path "/music")
       = Return (a, t, Some "album CD2")).
Proof.
  assert (E : infer_from_path (Path "/music/artist/album/cd2/song.ext")
                (Path "/music")
              = Return (Some "artist", Some "song", Some "album cd2"))
    by (vm_compute; reflexivity).
  split; [exact E|].
  intros (a & t & H). rewrite E in H. discriminate H.
Qed.

(** C8 (amended): for every path [artist/album/disc/song] below the
    library root whose third segment is the letters c and d in either
    case, optional whitespace and one or more digits, the inferred album
    is the second segment, one space, and the third segment as the path
    spells it. *)
Theorem infer_album_disc_subfolder (root : PurePath)
    (artist album disc song : string) :
  disc_token disc ->
  exists a t,
    infer_from_path
      (mkPath (anchor root) (tail root ++ [artist; album; disc; song])%list)
      root
    = Return (a, t, Some (album ++ " " ++ disc)).
Proof.
  intros Hd. unfold infer_from_path. rewrite relative_to_under.
  cbn [bind try_except parts anchor tail List.length Nat.leb getitem
       nth_error].
  rewrite (disc_token_matches _ Hd). cbn [bind].
  assert (Hal : or_None (Some (album ++ " " ++ disc))
                = Some (album ++ " " ++ disc)).
  { destruct album; reflexivity. }
  title_cases; rewrite Hal; eauto.
Qed.

Lemma infer_album_disc_subfolder_witness :
  disc_token "CD2" /\
  exists a t,
    infer_from_path (Path "/music/artist/album/CD2/song.ext") (Path "/music")
    = Return (a, t, Some "album CD2").
Proof.
  assert (Hd : disc_token "CD2").
  { exists "C"%char, "D"%char, "", "2". repeat split; auto. discriminate. }
  split; [exact Hd|].
  exact (infer_album_disc_subfolder (Path "/music") "artist" "album" "CD2"
           "song.ext" Hd).
Defined.

(* ------------------------------------------------------------------ *)
(** ** The Candidate Selector *)

Section Selector.

Variables title artist : option string.

Let norm_title := normalize (or_str title "").
Let norm_artist := normalize (or_str artist "").

Lemma or_str_empty (o : option string) : or_str o "" = or_empty o.
Proof. destruct o as [[|c s]|]; reflexivity. Qed.

(** The score the loop computes is the score of the specification. *)
Lemma score_match_score (r : candidate) :
  score norm_title norm_artist r = match_score title artist r.
Proof.
  unfold score, match_score, field_matches, candidate_title.
  subst norm_title norm_artist.
  rewrite !or_str_empty.
  destruct (normalize (or_empty title)) as [|c1 s1] eqn:Et;
    destruct (normalize (or_empty artist)) as [|c2 s2] eqn:Ea;
    cbn [String.eqb negb andb orb];
    repeat match goal with
           | |- context [String.eqb ?a ?b] => destruct (String.eqb a b)
           end; reflexivity.
Qed.

(** The loop from an accumulator [(s0, r0)]: the final score bounds the
    scores seen, and the final result is either the accumulator's or the
    first later result that reaches the final score. *)
Lemma fold_keep_best (l : list candidate) :
  forall s0 r0,
  exists s r,
    fold_left (keep_best norm_title norm_artist) l (Some (s0, r0))
    = Some (s, r) /\
    s0 <= s /\
    (forall x, In x l -> score norm_title norm_artist x <= s) /\
    ((s = s0 /\ r = r0) \/
     (s0 < s /\
      exists i, nth_error l i = Some r /\
                score norm_title norm_artist r = s /\
                forall j x, j < i -> nth_error l j = Some x ->
                            score norm_title norm_artist x < s)).
Proof.
  induction l as [|x l IH]; intros s0 r0.
  - exists s0, r0. simpl. repeat split; auto. intros ? [].
  - cbn [fold_left keep_best].
    destruct (Nat.ltb s0 (score norm_title norm_artist x)) eqn:Elt.
    + apply Nat.ltb_lt in Elt.
      destruct (IH (score norm_title norm_artist x) x)
        as (s & r & Hf & Hle & Hall & Hcase).
      exists s, r. split; [exact Hf|]. split; [lia|]. split.
      * intros y [<-|Hy]; [exact Hle | now apply Hall].
      * right. split; [lia|].
        destruct Hcase as [[-> ->]|(Hlt & i & Hi & Hs & Hbefore)].
        -- exists 0. repeat split; auto. intros j y Hj. lia.
        -- exists (S i). repeat split; auto.
           intros [|j] y Hj Hy; simpl in Hy.
           ++ inversion Hy; subst. exact Hlt.
           ++ apply (Hbefore j); [lia | exact Hy].
    + apply Nat.ltb_ge in Elt.
      destruct (IH s0 r0) as (s & r & Hf & Hle & Hall & Hcase).
      exists s, r. split; [exact Hf|]. split; [exact Hle|]. split.
      * intros y [<-|Hy]; [lia | now apply Hall].
      * destruct Hcase as [[-> ->]|(Hlt & i & Hi & Hs & Hbefore)];
          [now left | right].
        split; [exact Hlt|].
        exists (S i). repeat split; auto.
        intros [|j] y Hj Hy; simpl in Hy.
        -- inversion Hy; subst. lia.
        -- apply (Hbefore j); [lia | exact Hy].
Qed.

(** On a non-empty list scored by the loop, the selector returns the
    first result of highest score. *)
Lemma choose_scored (r0 : candidate) (l : list candidate) :
  exists i best,
    nth_error (r0 :: l) i = Some best /\
    match fold_left (keep_best norm_title norm_artist) (r0 :: l) None with
    | Some (_, r) => Some r
    | None => Some r0
    end = Some best /\
    (forall x, In x (r0 :: l) ->
               score norm_title norm_artist x
               <= score norm_title norm_artist best) /\
    (forall j x, j < i -> nth_error (r0 :: l) j = Some x ->
                 score norm_title norm_artist x
                 < score norm_title norm_artist best).
Proof.
  cbn [fold_left keep_best].
  destruct (fold_keep_best l (score norm_title norm_artist r0) r0)
    as (s & r & -> & Hle & Hall & Hcase).
  destruct Hcase as [[-> ->]|(Hlt & i & Hi & Hs & Hbefore)].
  - exists 0, r0. repeat split; auto.
    + intros x [<-|Hx]; [lia | now apply Hall].
    + intros j x Hj. lia.
  - exists (S i), r. subst s. repeat split; auto.
    + intros x [<-|Hx]; [lia | now apply Hall].
    + intros [|j] x Hj Hx; simpl in Hx.
      * inversion Hx; subst. exact Hlt.
      * apply (Hbefore j); [lia | exact Hx].
Qed.

End Selector.

(** The selection example of the specification: the query (b, y)
    selects the second candidate, whose score is 2. *)
Example choose_best_result_example :
  choose_best_result [candidate_A_X; candidate_B_Y] (Some "b") (Some " y ")
  = Some candidate_B_Y /\
  match_score (Some "b") (Some " y ") candidate_B_Y = 2.
Proof. split; vm_compute; reflexivity. Qed.

(** C4: the selector returns none exactly for the empty list; without
    a title and without an artist it returns the first result; and when
    every result scores 0 it returns the first result, not none. *)
Theorem choose_best_result_none_iff_empty (results : list candidate)
    (title artist : option string) :
  (choose_best_result results title artist = None <-> results = []) /\
  (truthy title = false -> truthy artist = false ->
   forall r rs, results = r :: rs ->
                choose_best_result results title artist = Some r) /\
  ((forall x, In x results -> match_score title artist x = 0) ->
   forall r rs, results = r :: rs ->
                choose_best_result results title artist = Some r).
Proof.
  split; [|split].
  - split; [|intros ->; reflexivity].
    destruct results as [|r0 l]; [reflexivity|]. intros H. exfalso.
    unfold choose_best_result in H.
    destruct (negb (truthy title) && negb (truthy artist)); [discriminate|].
    pose proof (choose_scored title artist r0 l) as Hc. cbv zeta in Hc.
    destruct Hc as (i & best & _ & Hc & _). congruence.
  - intros Ht Ha r rs ->. unfold choose_best_result. now rewrite Ht, Ha.
  - intros Hzero r rs ->. unfold choose_best_result.
    destruct (negb (truthy title) && negb (truthy artist)); [reflexivity|].
    pose proof (choose_scored title artist r rs) as Hc. cbv zeta in Hc.
    destruct Hc as (i & best & Hi & Hc & Hmax & Hfirst).
    rewrite Hc. destruct i as [|i]; [simpl in Hi; congruence|].
    exfalso. specialize (Hfirst 0 r (Nat.lt_0_succ i) eq_refl).
    rewrite !score_match_score in Hfirst.
    rewrite (Hzero best) in Hfirst; [lia|].
    eapply nth_error_In; exact Hi.
Qed.

Lemma choose_best_result_none_iff_empty_witness :
  truthy None = false /\
  (forall x, In x [candidate_A_X; candidate_B_Y] ->
             match_score (Some "zz") None x = 0) /\
  choose_best_result [candidate_A_X; candidate_B_Y] None None
  = Some candidate_A_X /\
  choose_best_result [candidate_A_X; candidate_B_Y] (Some "zz") None
  = Some candidate_A_X.
Proof.
  assert (Hz : forall x, In x [candidate_A_X; candidate_B_Y] ->
                         match_score (Some "zz") None x = 0).
  { intros x [<-|[<-|[]]]; reflexivity. }
  split; [reflexivity|]. split; [exact Hz|]. split.
  - exact (proj1 (proj2 (choose_best_result_none_iff_empty
                           [candidate_A_X; candidate_B_Y] None None))
             eq_refl eq_refl candidate_A_X [candidate_B_Y] eq_refl).
  - exact (proj2 (proj2 (choose_best_result_none_iff_empty
                           [candidate_A_X; candidate_B_Y] (Some "zz") None))
             Hz candidate_A_X [candidate_B_Y] eq_refl).
Defined.

(** C10: on a non-empty list the selector returns one of the results
    it was given, and so never none. *)
Theorem choose_best_result_member (results : list candidate)
    (title artist : option string) :
  results <> [] ->
  exists r, choose_best_result results title artist = Some r /\
            In r results.
Proof.
  intros Hne. destruct results as [|r0 l]; [congruence|].
  unfold choose_best_result.
  destruct (negb (truthy title) && negb (truthy artist)).
  - exists r0. split; [reflexivity | now left].
  - pose proof (choose_scored title artist r0 l) as Hc. cbv zeta in Hc.
    destruct Hc as (i & best & Hi & Hc & _).
    exists best. split; [exact Hc|]. eapply nth_error_In; exact Hi.
Qed.

Lemma choose_best_result_member_witness :
  [candidate_A_X; candidate_B_Y] <> [] /\
  exists r,
    choose_best_result [candidate_A_X; candidate_B_Y] (Some "b") None
    = Some r /\
    In r [candidate_A_X; candidate_B_Y].
Proof.
  assert (Hne : [candidate_A_X; candidate_B_Y] <> []) by discriminate.
  split; [exact Hne|].
  exact (choose_best_result_member _ (Some "b") None Hne).
Defined.

(* ------------------------------------------------------------------ *)
(** ** The Metadata Resolver *)

Lemma fill_gap_prefer (tag inferred : option string) :
  (if negb (truthy tag) then inferred else tag) = prefer tag inferred.
Proof. destruct tag as [[|c s]|]; reflexivity. Qed.

Lemma first_of_tags (a : audio_file) (key : string) :
  first match tags a with
        | Some (t :: ts) => t :: ts
        | _ => []
        end key
  = tag_field (Some a) key.
Proof. unfold tag_field. destruct (tags a) as [[|t ts]|]; reflexivity. Qed.

(** Reading the duration never raises: what [int(round(...))] raises is
    caught. *)
Lemma duration_returns (a : audio_file) :
  exists d,
    try_except
      match info a with
      | Some i =>
          match length i with
          | Some len => d <- int_round len ;; Return (Some d)
          | None => Return None
          end
      | None => Return None
      end
      is_Exception (Return None)
    = Return d.
Proof.
  destruct (info a) as [[[[q| |]|]]|]; simpl; eauto.
Qed.

Section Resolver.

Variable MutagenFile : PurePath -> result (option audio_file).
Variables path library_root : PurePath.

(** What the resolver returns once the tag reader has returned. *)
Lemma get_metadata_of_audio (audio : option audio_file) :
  try_except (MutagenFile path) is_Exception (Return None) = Return audio ->
  exists inf_artist inf_title inf_album duration,
    infer_from_path path library_root
    = Return (inf_artist, inf_title, inf_album) /\
    get_metadata MutagenFile path library_root
    = Return (prefer (tag_field audio "artist") inf_artist,
              prefer (tag_field audio "title") inf_title,
              prefer (tag_field audio "album") inf_album,
              duration) /\
    (audio = None -> duration = None) /\
    inf_artist <> Some "" /\ inf_title <> Some "" /\ inf_album <> Some "".
Proof.
  intros Hr. unfold get_metadata. rewrite Hr. cbn [bind].
  destruct (infer_from_path_returns path library_root) as (a & t & al & Hi).
  exists (or_None a), (or_None t), (or_None al).
  destruct audio as [au|].
  - destruct (duration_returns au) as [d ->]. cbn [bind]. rewrite Hi.
    cbn [bind]. rewrite !fill_gap_prefer, !first_of_tags.
    exists d. repeat split; auto using or_None_not_empty. discriminate.
  - cbn [bind]. rewrite Hi. cbn [bind]. rewrite !fill_gap_prefer.
    exists None. repeat split; auto using or_None_not_empty.
Qed.

(** C5: once the tag reader has returned, each of artist, title and
    album is the tag value when that is present and not empty, and the
    path-inferred value otherwise, which is absent or not empty; an
    empty tag value counts as absent. *)
Theorem get_metadata_prefers_tags (audio : option audio_file) :
  MutagenFile path = Return audio ->
  exists inf_artist inf_title inf_album duration,
    infer_from_path path library_root
    = Return (inf_artist, inf_title, inf_album) /\
    get_metadata MutagenFile path library_root
    = Return (prefer (tag_field audio "artist") inf_artist,
              prefer (tag_field audio "title") inf_title,
              prefer (tag_field audio "album") inf_album,
              duration) /\
    inf_artist <> Some "" /\ inf_title <> Some "" /\ inf_album <> Some "" /\
    (forall inferred, prefer (Some "") inferred = inferred) /\
    (forall inferred, prefer None inferred = inferred) /\
    (forall c s inferred,
        prefer (Some (String c s)) inferred = Some (String c s)).
Proof.
  intros Hr.
  destruct (get_metadata_of_audio audio) as (a & t & al & d & Hi & Hg & _ & H).
  { now rewrite Hr. }
  exists a, t, al, d. repeat split; try tauto.
Qed.

(** C9: when the tag reader raises an exception or does not recognise
    the file, the resolver does not raise: it returns the path-inferred
    artist, title and album and no duration. *)
Theorem get_metadata_tag_failure :
  (MutagenFile path = Return None \/
   exists e, MutagenFile path = Raise e /\ is_Exception e = true) ->
  exists inf_artist inf_title inf_album,
    infer_from_path path library_root
    = Return (inf_artist, inf_title, inf_album) /\
    get_metadata MutagenFile path library_root
    = Return (inf_artist, inf_title, inf_album, None).
Proof.
  intros Hf.
  destruct (get_metadata_of_audio None)
    as (a & t & al & d & Hi & Hg & Hd & _).
  { destruct Hf as [-> | (e & -> & He)]; simpl; [|rewrite He]; reflexivity. }
  exists a, t, al. rewrite (Hd eq_refl) in Hg. simpl in Hg. now split.
Qed.

(** Whatever the tag reader returns, and whichever [Exception] it
    raises, the resolver returns. *)
Lemma get_metadata_returns :
  (forall e, MutagenFile path = Raise e -> is_Exception e = true) ->
  exists m, get_metadata MutagenFile path library_root = Return m.
Proof.
  intros He.
  assert (Hr : exists audio,
             try_except (MutagenFile path) is_Exception (Return None)
             = Return audio).
  { destruct (MutagenFile path) as [au|e] eqn:E; simpl; [eauto|].
    rewrite (He e eq_refl). eauto. }
  destruct Hr as [audio Hr].
  destruct (get_metadata_of_audio audio Hr) as (a & t & al & d & _ & Hg & _).
  eauto.
Qed.

End Resolver.

Lemma get_metadata_prefers_tags_witness :
  reader_tagged (Path "/music/artist/album/01 - song.flac")
  = Return (Some tagged_audio) /\
  exists inf_artist inf_title inf_album duration,
    infer_from_path (Path "/music/artist/album/01 - song.flac")
      (Path "/music")
    = Return (inf_artist, inf_title, inf_album) /\
    get_metadata reader_tagged (Path "/music/artist/album/01 - song.flac")
      (Path "/music")
    = Return (prefer (tag_field (Some tagged_audio) "artist") inf_artist,
              prefer (tag_field (Some tagged_audio) "title") inf_title,
              prefer (tag_field (Some tagged_audio) "album") inf_album,
              duration) /\
    inf_artist <> Some "" /\ inf_title <> Some "" /\ inf_album <> Some "" /\
    (forall inferred, prefer (Some "") inferred = inferred) /\
    (forall inferred, prefer None inferred = inferred) /\
    (forall c s inferred,
        prefer (Some (String c s)) inferred = Some (String c s)).
Proof.
  split; [reflexivity|].
  exact (get_metadata_prefers_tags reader_tagged
           (Path "/music/artist/album/01 - song.flac") (Path "/music")
           (Some tagged_audio) eq_refl).
Defined.

(** The resolver on the tagged file: the title comes from the tag, the
    artist (empty tag) and the album (no tag) from the path. *)
Example get_metadata_tagged :
  get_metadata reader_tagged (Path "/music/artist/album/01 - song.flac")
    (Path "/music")
  = Return (Some "artist", Some "Tagged Title", Some "album", Some 200%Z).
Proof. vm_compute. reflexivity. Qed.

Lemma get_metadata_tag_failure_witness :
  (reader_failing (Path "/music/artist/album/01 - song.flac") = Return None \/
   exists e, reader_failing (Path "/music/artist/album/01 - song.flac")
             = Raise e /\ is_Exception e = true) /\
  exists inf_artist inf_title inf_album,
    infer_from_path (Path "/music/artist/album/01 - song.flac")
      (Path "/music")
    = Return (inf_artist, inf_title, inf_album) /\
    get_metadata reader_failing (Path "/music/artist/album/01 - song.flac")
      (Path "/music")
    = Return (inf_artist, inf_title, inf_album, None).
Proof.
  assert (Hf : reader_failing (Path "/music/artist/album/01 - song.flac")
               = Return None \/
               exists e,
                 reader_failing (Path "/music/artist/album/01 - song.flac")
                 = Raise e /\ is_Exception e = true).
  { right. exists MutagenError. split; reflexivity. }
  split; [exact Hf|].
  exact (get_metadata_tag_failure reader_failing
           (Path "/music/artist/album/01 - song.flac") (Path "/music") Hf).
Defined.

(** An exception that is not an [Exception] is not caught. *)
Example get_metadata_interrupt :
  get_metadata (fun _ => Raise KeyboardInterrupt)
    (Path "/music/artist/album/01 - song.flac") (Path "/music")
  = Raise KeyboardInterrupt.
Proof. reflexivity. Qed.

(* ------------------------------------------------------------------ *)
(** ** The Lyrics Materializer *)

Lemma or_str_some (s : string) : or_str (Some s) "" = s.
Proof. destruct s; reflexivity. Qed.

Lemma strip_blank (o : option string) :
  blank o = true ->
  String.eqb (Str.strip (or_str o "")) "" = true.
Proof.
  intros H. rewrite or_str_empty, strip_eqb_empty.
  destruct o as [s|]; [exact H | reflexivity].
Qed.

(** C6: for the chosen result, no lyrics when its instrumental flag
    is true, whatever its lyrics fields hold; otherwise the synced
    lyrics, flagged synced, when they contain a non-whitespace
    character, whatever the plain lyrics are; otherwise the plain lyrics
    when they contain a non-whitespace character; otherwise no lyrics. *)
Theorem lyrics_of_cases (best : candidate) :
  (instrumental best = Some true -> lyrics_of best = (None, false)) /\
  (instrumental best <> Some true ->
   forall synced, syncedLyrics best = Some synced ->
                  has_nonspace synced = true ->
                  lyrics_of best = (Some synced, true)) /\
  (instrumental best <> Some true ->
   blank (syncedLyrics best) = true ->
   forall plain, plainLyrics best = Some plain ->
                 has_nonspace plain = true ->
                 lyrics_of best = (Some plain, false)) /\
  (instrumental best <> Some true ->
   blank (syncedLyrics best) = true ->
   blank (plainLyrics best) = true ->
   lyrics_of best = (None, false)).
Proof.
  assert (Hflag : instrumental best <> Some true ->
                  is_true (instrumental best) = false).
  { destruct (instrumental best) as [[|]|]; [congruence | auto | auto]. }
  unfold lyrics_of, has_nonspace. repeat split.
  - intros ->. reflexivity.
  - intros Hi synced -> Hs. rewrite (Hflag Hi), or_str_some, strip_eqb_empty.
    apply negb_true_iff in Hs. now rewrite Hs.
  - intros Hi Hb plain Hp Hs. rewrite (Hflag Hi), (strip_blank _ Hb).
    cbn [negb]. rewrite Hp, or_str_some, strip_eqb_empty.
    apply negb_true_iff in Hs. now rewrite Hs.
  - intros Hi Hs Hp.
    now rewrite (Hflag Hi), (strip_blank _ Hs), (strip_blank _ Hp).
Qed.

Lemma lyrics_of_cases_witness :
  instrumental candidate_instrumental = Some true /\
  syncedLyrics candidate_instrumental = Some "[00:01.00] x" /\
  plainLyrics candidate_instrumental = Some "x" /\
  lyrics_of candidate_instrumental = (None, false) /\
  instrumental candidate_B_Y <> Some true /\
  syncedLyrics candidate_B_Y = Some "[00:01.00] la" /\
  has_nonspace "[00:01.00] la" = true /\
  lyrics_of candidate_B_Y = (Some "[00:01.00] la", true) /\
  instrumental candidate_A_X <> Some true /\
  blank (syncedLyrics candidate_A_X) = true /\
  plainLyrics candidate_A_X = Some "la la" /\
  has_nonspace "la la" = true /\
  lyrics_of candidate_A_X = (Some "la la", false).
Proof.
  assert (HB : instrumental candidate_B_Y <> Some true) by discriminate.
  assert (HA : instrumental candidate_A_X <> Some true) by discriminate.
  split; [reflexivity|]. split; [reflexivity|]. split; [reflexivity|].
  split; [exact (proj1 (lyrics_of_cases candidate_instrumental) eq_refl)|].
  split; [exact HB|]. split; [reflexivity|]. split; [reflexivity|].
  split; [exact (proj1 (proj2 (lyrics_of_cases candidate_B_Y)) HB
                   "[00:01.00] la" eq_refl eq_refl)|].
  split; [exact HA|]. split; [reflexivity|]. split; [reflexivity|].
  split; [reflexivity|].
  exact (proj1 (proj2 (proj2 (lyrics_of_cases candidate_A_X))) HA
           eq_refl "la la" eq_refl eq_refl).
Defined.

(** The lookup hands the chosen result to the materializer. *)
Lemma fetch_lyrics_of_best (search : option string -> result json_body)
    (artist title : option string) (results : list candidate)
    (best : candidate) :
  truthy title = true \/ truthy artist = true ->
  search (search_query artist title) = Return (JsonList results) ->
  choose_best_result results title artist = Some best ->
  fetch_lyrics_from_lrclib search artist title = Return (lyrics_of best).
Proof.
  intros Hq Hs Hc. unfold fetch_lyrics_from_lrclib.
  assert (Hb : negb (truthy title) && negb (truthy artist) = false).
  { destruct Hq as [-> | ->]; simpl; [reflexivity | apply andb_false_r]. }
  rewrite Hb, Hs. cbn [bind try_except].
  destruct results as [|r rs]; [discriminate|]. now rewrite Hc.
Qed.

(* ------------------------------------------------------------------ *)
(** ** Rendering plain lyrics *)

Lemma stamp_line (line : string) :
  (if negb (String.eqb (Str.strip line) "")
   then "[00:00.00] " ++ line else "") = stamp line.
Proof.
  unfold stamp. rewrite strip_eqb_empty.
  now destruct (all_chars Str.isspace line).
Qed.

(** The loop appends the rendering of each line, in order. *)
Lemma stamp_lines_map (lines : list string) :
  stamp_lines lines = map stamp lines.
Proof.
  unfold stamp_lines.
  enough (H : forall acc,
             fold_left
               (fun out_lines line =>
                  if negb (String.eqb (Str.strip line) "")
                  then app out_lines ["[00:00.00] " ++ line]
                  else app out_lines [""])
               lines acc
             = app acc (map stamp lines)) by apply (H []).
  induction lines as [|x l IH]; intros acc; simpl.
  - now rewrite app_nil_r.
  - rewrite IH, <- stamp_line.
    destruct (negb (String.eqb (Str.strip x) ""));
      now rewrite <- app_assoc.
Qed.

Lemma rstrip_append_congr (a b1 b2 : string) :
  Str.rstrip b1 = Str.rstrip b2 ->
  Str.rstrip (a ++ b1) = Str.rstrip (a ++ b2).
Proof.
  intros H. induction a as [|c a IH]; simpl; [exact H | now rewrite IH].
Qed.








(** Other line boundaries split too: a carriage return, with or
    without a line feed after it, ends a line. *)
Example make_unsynced_lrc_carriage_return :
  make_unsynced_lrc (String "a" (String "013" (String "010" "b")))
  = "[00:00.00] a" ++ newline ++ "[00:00.00] b" ++ newline /\
  make_unsynced_lrc (String "a" (String "013" "b"))
  = "[00:00.00] a" ++ newline ++ "[00:00.00] b" ++ newline.
Proof. split; vm_compute; reflexivity. Qed.

(* ------------------------------------------------------------------ *)
(** ** Normalization *)

Section NormalizeFacts.

Local Abbreviation collapse := (sub_many1 Str.isspace " ").

Ltac each_char c := destruct c as [[] [] [] [] [] [] [] []]; reflexivity.

Lemma lower_char_idempotent (c : ascii) :
  Str.lower_char (Str.lower_char c) = Str.lower_char c.
Proof. each_char c. Qed.

Lemma isspace_lower_char (c : ascii) :
  Str.isspace (Str.lower_char c) = Str.isspace c.
Proof. each_char c. Qed.

Lemma lower_char_is_space (c : ascii) :
  Ascii.eqb (Str.lower_char c) " " = Ascii.eqb c " ".
Proof. each_char c. Qed.

Lemma isspace_space : Str.isspace " " = true.
Proof. reflexivity. Qed.

Lemma lower_idempotent (s : string) : Str.lower (Str.lower s) = Str.lower s.
Proof.
  induction s as [|c s IH]; simpl; [reflexivity|].
  now rewrite lower_char_idempotent, IH.
Qed.

Lemma collapse_lower (b : bool) (s : string) :
  collapse b (Str.lower s) = Str.lower (collapse b s).
Proof.
  revert b. induction s as [|c s IH]; intros b; simpl; [reflexivity|].
  rewrite isspace_lower_char. destruct (Str.isspace c).
  - destruct b; simpl; now rewrite IH.
  - simpl. now rewrite IH.
Qed.

Lemma lstrip_lower (s : string) :
  Str.lstrip (Str.lower s) = Str.lower (Str.lstrip s).
Proof.
  induction s as [|c s IH]; simpl; [reflexivity|].
  rewrite isspace_lower_char. now destruct (Str.isspace c).
Qed.

Lemma rstrip_lower (s : string) :
  Str.rstrip (Str.lower s) = Str.lower (Str.rstrip s).
Proof.
  induction s as [|c s IH]; simpl; [reflexivity|].
  rewrite IH, isspace_lower_char.
  destruct (Str.rstrip s); simpl; [now destruct (Str.isspace c) | reflexivity].
Qed.

Lemma strip_lower (s : string) :
  Str.strip (Str.lower s) = Str.lower (Str.strip s).
Proof. unfold Str.strip. now rewrite rstrip_lower, lstrip_lower. Qed.

Lemma single_spaced_lower (b : bool) (s : string) :
  single_spaced b (Str.lower s) = single_spaced b s.
Proof.
  revert b. induction s as [|c s IH]; intros b; simpl; [reflexivity|].
  now rewrite isspace_lower_char, lower_char_is_space, !IH.
Qed.

Lemma single_spaced_collapse (s : string) :
  forall b, single_spaced b (collapse b s) = true.
Proof.
  induction s as [|c s IH]; intros b; simpl; [reflexivity|].
  destruct (Str.isspace c) eqn:Ec.
  - destruct b; [apply IH|].
    change (single_spaced false (String " " (collapse true s)) = true).
    cbn [single_spaced]. rewrite isspace_space. simpl. apply IH.
  - simpl. rewrite Ec. apply IH.
Qed.

Lemma collapse_fixed (s : string) :
  forall b, single_spaced b s = true -> collapse b s = s.
Proof.
  induction s as [|c s IH]; intros b H; simpl in *; [reflexivity|].
  destruct (Str.isspace c).
  - apply andb_true_iff in H as [H Hs]. apply andb_true_iff in H as [Hc Hb].
    apply Ascii.eqb_eq in Hc. subst c. destruct b; [discriminate|].
    simpl. now rewrite (IH true Hs).
  - now rewrite (IH false H).
Qed.

Lemma single_spaced_weaken (s : string) (b : bool) :
  single_spaced b s = true -> single_spaced false s = true.
Proof.
  destruct s as [|c s]; simpl; [reflexivity|].
  destruct (Str.isspace c); [|auto]. intros H.
  apply andb_true_iff in H as [H Hs]. apply andb_true_iff in H as [Hc _].
  now rewrite Hc, Hs.
Qed.

Lemma single_spaced_lstrip (s : string) :
  forall b, single_spaced b s = true ->
            single_spaced true (Str.lstrip s) = true.
Proof.
  induction s as [|c s IH]; intros b H; simpl in *; [reflexivity|].
  destruct (Str.isspace c) eqn:Ec.
  - apply andb_true_iff in H as [_ Hs]. now apply (IH true).
  - simpl. now rewrite Ec.
Qed.

Lemma single_spaced_rstrip (s : string) :
  forall b, single_spaced b s = true ->
            single_spaced b (Str.rstrip s) = true.
Proof.
  induction s as [|c s IH]; intros b H; [reflexivity|].
  cbn [single_spaced] in H. cbn [Str.rstrip].
  destruct (Str.isspace c) eqn:Ec.
  - apply andb_true_iff in H as [H Hs]. specialize (IH true Hs).
    destruct (Str.rstrip s) as [|x r]; [reflexivity|].
    cbn [single_spaced]. rewrite Ec, H. exact IH.
  - specialize (IH false H).
    destruct (Str.rstrip s) as [|x r]; cbn [single_spaced]; rewrite Ec;
      [reflexivity | exact IH].
Qed.

Lemma lstrip_idempotent (s : string) :
  Str.lstrip (Str.lstrip s) = Str.lstrip s.
Proof.
  induction s as [|c s IH]; simpl; [reflexivity|].
  destruct (Str.isspace c) eqn:Ec; [exact IH | simpl; now rewrite Ec].
Qed.

Lemma rstrip_lstrip_fixed (s : string) :
  Str.rstrip s = s -> Str.rstrip (Str.lstrip s) = Str.lstrip s.
Proof.
  induction s as [|c s IH]; intros H; [reflexivity|].
  cbn [Str.lstrip]. destruct (Str.isspace c) eqn:Ec; [|exact H].
  apply IH. cbn [Str.rstrip] in H. rewrite Ec in H.
  destruct (Str.rstrip s) as [|x r]; [discriminate|]. congruence.
Qed.

Lemma strip_idempotent (s : string) : Str.strip (Str.strip s) = Str.strip s.
Proof.
  unfold Str.strip.
  rewrite (rstrip_lstrip_fixed (Str.rstrip s)) by apply rstrip_idempotent.
  apply lstrip_idempotent.
Qed.

Lemma lstrip_rstrip_comm (s : string) :
  Str.lstrip (Str.rstrip s) = Str.rstrip (Str.lstrip s).
Proof.
  induction s as [|c s IH]; [reflexivity|].
  cbn [Str.lstrip]. destruct (Str.isspace c) eqn:Ec.
  - rewrite <- IH. cbn [Str.rstrip]. rewrite Ec.
    destruct (Str.rstrip s) as [|x r] eqn:Er; [reflexivity|].
    cbn [Str.lstrip]. now rewrite Ec.
  - cbn [Str.rstrip]. rewrite Ec.
    destruct (Str.rstrip s); cbn [Str.lstrip]; now rewrite Ec.
Qed.

Lemma lstrip_append_space (w s : string) :
  all_chars Str.isspace w = true -> Str.lstrip (w ++ s) = Str.lstrip s.
Proof.
  induction w as [|c w IH]; simpl; intros H; [reflexivity|].
  apply andb_true_iff in H as [Hc Hw]. rewrite Hc. now apply IH.
Qed.

Lemma strip_append_space (w1 s w2 : string) :
  all_chars Str.isspace w1 = true -> all_chars Str.isspace w2 = true ->
  Str.strip (w1 ++ s ++ w2) = Str.strip s.
Proof.
  intros H1 H2. unfold Str.strip.
  rewrite <- append_assoc, rstrip_append_space by assumption.
  now rewrite !lstrip_rstrip_comm, lstrip_append_space.
Qed.

Lemma collapse_all_space (s : string) :
  forall b, all_chars Str.isspace s = true ->
            all_chars Str.isspace (collapse b s) = true.
Proof.
  induction s as [|c s IH]; intros b H; simpl in *; [reflexivity|].
  apply andb_true_iff in H as [Hc Hs]. rewrite Hc.
  destruct b; [now apply IH|].
  change (all_chars Str.isspace (String " " (collapse true s)) = true).
  simpl. now apply IH.
Qed.

Lemma lstrip_collapse (s : string) :
  forall b, Str.lstrip (collapse b s)
            = Str.lstrip (collapse false (Str.lstrip s)).
Proof.
  induction s as [|c s IH]; intros b; [reflexivity|].
  cbn [sub_many1 Str.lstrip]. destruct (Str.isspace c) eqn:Ec.
  - destruct b; [apply IH|].
    change (Str.lstrip (String " " (collapse true s))
            = Str.lstrip (collapse false (Str.lstrip s))).
    cbn [Str.lstrip]. rewrite isspace_space. apply IH.
  - cbn [sub_many1]. now rewrite Ec.
Qed.

Lemma rstrip_collapse (s : string) :
  forall b, Str.rstrip (collapse b s)
            = Str.rstrip (collapse b (Str.rstrip s)).
Proof.
  induction s as [|c s IH]; intros b; [reflexivity|].
  cbn [Str.rstrip]. destruct (Str.rstrip s) as [|x r] eqn:Er.
  - assert (Hs : all_chars Str.isspace s = true)
      by now apply rstrip_empty_inv.
    destruct (Str.isspace c) eqn:Ec.
    + apply rstrip_all_space, collapse_all_space. simpl. now rewrite Ec.
    + cbn [sub_many1]. rewrite Ec. cbn [sub_many1 Str.rstrip].
      now rewrite (rstrip_all_space _ (collapse_all_space s false Hs)).
  - cbn [sub_many1]. destruct (Str.isspace c).
    + destruct b; [apply IH|].
      apply (rstrip_append_congr " "). apply IH.
    + apply (rstrip_append_congr (String c "")). apply IH.
Qed.

Lemma strip_collapse (s : string) :
  Str.strip (collapse false (Str.strip s)) = Str.strip (collapse false s).
Proof.
  unfold Str.strip.
  rewrite (lstrip_rstrip_comm (collapse false _)).
  rewrite <- (lstrip_collapse (Str.rstrip s) false).
  rewrite <- lstrip_rstrip_comm.
  now rewrite <- rstrip_collapse.
Qed.

(** A text in normal form is left as it is. *)
Lemma normalize_fixed (s : string) :
  single_spaced false s = true -> Str.strip s = s -> Str.lower s = s ->
  normalize s = s.
Proof.
  intros H1 H2 H3. unfold normalize.
  now rewrite (collapse_fixed _ _ H1), H2, H3.
Qed.

Lemma normalize_normal_form (s : string) :
  single_spaced true (normalize s) = true /\
  Str.strip (normalize s) = normalize s /\
  Str.lower (normalize s) = normalize s.
Proof.
  unfold normalize. repeat split.
  - rewrite single_spaced_lower. unfold Str.strip.
    apply (single_spaced_lstrip _ false), single_spaced_rstrip,
      single_spaced_collapse.
  - now rewrite <- strip_lower, strip_idempotent.
  - apply lower_idempotent.
Qed.

End NormalizeFacts.

Lemma normalize_strip (s : string) : normalize (Str.strip s) = normalize s.
Proof. unfold normalize. now rewrite strip_collapse. Qed.

Lemma normalize_lower_eq (s s' : string) :
  Str.lower s = Str.lower s' -> normalize s = normalize s'.
Proof.
  intros H. unfold normalize.
  now rewrite <- !strip_lower, <- !collapse_lower, H.
Qed.

Lemma collapse_space_inv (s : string) :
  forall b, all_chars Str.isspace (sub_many1 Str.isspace " " b s) = true ->
            all_chars Str.isspace s = true.
Proof.
  induction s as [|c s IH]; intros b H; simpl in *; [reflexivity|].
  destruct (Str.isspace c) eqn:Ec.
  - destruct b; [now apply (IH true)|].
    change (all_chars Str.isspace
              (String " " (sub_many1 Str.isspace " " true s)) = true) in H.
    simpl in H. now apply (IH true).
  - simpl in H. now rewrite Ec in H.
Qed.

Lemma lower_empty_inv (s : string) : Str.lower s = "" -> s = "".
Proof. destruct s; [reflexivity | discriminate]. Qed.

(** A text normalizes to the empty text exactly when it is blank. *)
Lemma normalize_empty_iff (s : string) :
  normalize s = "" <-> all_chars Str.isspace s = true.
Proof.
  unfold normalize. split; intros H.
  - apply lower_empty_inv, strip_empty_iff in H.
    now apply collapse_space_inv in H.
  - assert (E : Str.strip (sub_many1 Str.isspace " " false s) = "")
      by now apply strip_empty_iff, collapse_all_space.
    now rewrite E.
Qed.

(** X1: normalizing a normalized text changes nothing. *)
Theorem normalize_idempotent (s : string) :
  normalize (normalize s) = normalize s.
Proof.
  destruct (normalize_normal_form s) as (H1 & H2 & H3).
  apply normalize_fixed; [|assumption|assumption].
  now apply (single_spaced_weaken _ true).
Qed.

(** X2: a normalized text has no whitespace but single space
    characters between other characters: none first, none last, never
    two in a row; and it is in lower case. *)
Theorem normalize_single_spaced (s : string) :
  single_spaced true (normalize s) = true /\
  Str.strip (normalize s) = normalize s /\
  Str.lower (normalize s) = normalize s.
Proof. exact (normalize_normal_form s). Qed.

(** X3: texts that differ in case and in whitespace around them
    normalize to the same text. *)
Theorem normalize_ignores_case_and_margins (w1 s w2 s' : string) :
  all_chars Str.isspace w1 = true ->
  all_chars Str.isspace w2 = true ->
  Str.lower s = Str.lower s' ->
  normalize (w1 ++ s ++ w2) = normalize s'.
Proof.
  intros H1 H2 H.
  rewrite <- normalize_strip, strip_append_space, normalize_strip
    by assumption.
  now apply normalize_lower_eq.
Qed.

Lemma normalize_ignores_case_and_margins_witness :
  all_chars Str.isspace " " = true /\
  all_chars Str.isspace (String "009" newline) = true /\
  Str.lower "Hello  World" = Str.lower "hELLO  wORLD" /\
  normalize (" " ++ "Hello  World" ++ String "009" newline)
  = normalize "hELLO  wORLD".
Proof.
  split; [reflexivity|]. split; [reflexivity|]. split; [reflexivity|].
  exact (normalize_ignores_case_and_margins " " "Hello  World"
           (String "009" newline) "hELLO  wORLD" eq_refl eq_refl eq_refl).
Defined.

Lemma match_score_le_2 (title artist : option string) (r : candidate) :
  match_score title artist r <= 2.
Proof.
  unfold match_score.
  destruct (field_matches _ _); destruct (field_matches _ _); lia.
Qed.

(** A field equal to the query's, up to case and whitespace around it,
    matches a query that is not blank. *)
Lemma field_matches_same (query field : string) :
  has_nonspace query = true ->
  Str.lower (Str.strip field) = Str.lower (Str.strip query) ->
  field <> "" /\ field_matches (normalize query) (Some field) = true.
Proof.
  intros Hq H.
  assert (Hn : normalize field = normalize query).
  { rewrite <- (normalize_strip field), <- (normalize_strip query).
    now apply normalize_lower_eq. }
  assert (Hne : normalize query <> "").
  { intros E. apply normalize_empty_iff in E.
    unfold has_nonspace in Hq. rewrite E in Hq. discriminate. }
  split.
  - intros ->. apply Hne. now rewrite <- Hn.
  - unfold field_matches. simpl or_empty. rewrite Hn.
    destruct (normalize query); [congruence | apply String.eqb_refl].
Qed.

(** X4: when a result's track name and artist name are the query's
    title and artist up to case and whitespace around them, and neither
    query field is blank, the selector returns the first result that
    matches both. *)
Theorem choose_best_result_perfect_match (results : list candidate)
    (title artist track_name artist_name : string) (x : candidate) :
  In x results ->
  trackName x = Some track_name -> artistName x = Some artist_name ->
  has_nonspace title = true -> has_nonspace artist = true ->
  Str.lower (Str.strip track_name) = Str.lower (Str.strip title) ->
  Str.lower (Str.strip artist_name) = Str.lower (Str.strip artist) ->
  exists i best,
    nth_error results i = Some best /\
    choose_best_result results (Some title) (Some artist) = Some best /\
    match_score (Some title) (Some artist) best = 2 /\
    (forall j y, j < i -> nth_error results j = Some y ->
                 match_score (Some title) (Some artist) y < 2).
Proof.
  intros Hx Ht Ha Hqt Hqa Et Ea.
  destruct (field_matches_same _ _ Hqt Et) as [Hnt Hmt].
  destruct (field_matches_same _ _ Hqa Ea) as [_ Hma].
  assert (Hsx : match_score (Some title) (Some artist) x = 2).
  { unfold match_score, candidate_title. rewrite Ht, Ha.
    destruct track_name; [congruence|]. cbn [or_else truthy or_empty] in *.
    now rewrite Hmt, Hma. }
  destruct results as [|r0 l]; [destruct Hx|].
  unfold choose_best_result.
  assert (Htr : truthy (Some title) = true).
  { destruct title; [discriminate Hqt | reflexivity]. }
  rewrite Htr. cbn [negb andb].
  pose proof (choose_scored (Some title) (Some artist) r0 l) as H.
  cbv zeta in H. destruct H as (i & best & Hi & Hc & Hmax & Hfirst).
  assert (Hb : match_score (Some title) (Some artist) best = 2).
  { specialize (Hmax x Hx). rewrite !score_match_score in Hmax.
    pose proof (match_score_le_2 (Some title) (Some artist) best). lia. }
  exists i, best. repeat split; auto.
  intros j y Hj Hy. specialize (Hfirst j y Hj Hy).
  rewrite !score_match_score in Hfirst. lia.
Qed.

Lemma choose_best_result_perfect_match_witness :
  In candidate_B_Y [candidate_A_X; candidate_B_Y] /\
  has_nonspace " b" = true /\ has_nonspace "y " = true /\
  exists i best,
    nth_error [candidate_A_X; candidate_B_Y] i = Some best /\
    choose_best_result [candidate_A_X; candidate_B_Y] (Some " b") (Some "y ")
    = Some best /\
    match_score (Some " b") (Some "y ") best = 2 /\
    (forall j y, j < i -> nth_error [candidate_A_X; candidate_B_Y] j = Some y ->
                 match_score (Some " b") (Some "y ") y < 2).
Proof.
  assert (Hx : In candidate_B_Y [candidate_A_X; candidate_B_Y])
    by (right; left; reflexivity).
  split; [exact Hx|]. split; [reflexivity|]. split; [reflexivity|].
  exact (choose_best_result_perfect_match [candidate_A_X; candidate_B_Y]
           " b" "y " "B" "Y" candidate_B_Y Hx eq_refl eq_refl eq_refl eq_refl
           eq_refl eq_refl).
Defined.

(* ------------------------------------------------------------------ *)
(** ** Patterns and file names *)

Section CharFacts.

Variable P : ascii -> bool.

Lemma all_chars_app (a b : string) :
  all_chars P (a ++ b) = all_chars P a && all_chars P b.
Proof.
  induction a as [|c a IH]; simpl; [reflexivity|].
  now rewrite IH, andb_assoc.
Qed.

Lemma all_chars_lstrip (s : string) :
  all_chars P s = true -> all_chars P (Str.lstrip s) = true.
Proof.
  induction s as [|c s IH]; simpl; intros H; [reflexivity|].
  destruct (Str.isspace c); [|exact H].
  apply andb_true_iff in H as [_ H]. now apply IH.
Qed.

Lemma all_chars_rstrip (s : string) :
  all_chars P s = true -> all_chars P (Str.rstrip s) = true.
Proof.
  induction s as [|c s IH]; simpl; intros H; [reflexivity|].
  apply andb_true_iff in H as [Hc H]. specialize (IH H).
  destruct (Str.rstrip s) as [|x r].
  - destruct (Str.isspace c); simpl; [reflexivity | now rewrite Hc].
  - change (P c && all_chars P (String x r) = true). now rewrite Hc, IH.
Qed.

Lemma all_chars_strip (s : string) :
  all_chars P s = true -> all_chars P (Str.strip s) = true.
Proof. intros H. now apply all_chars_lstrip, all_chars_rstrip. Qed.

Lemma all_chars_drop (n : nat) :
  forall s, all_chars P s = true -> all_chars P (Str.drop n s) = true.
Proof.
  induction n as [|n IH]; intros s H; [destruct s; exact H|].
  destruct s as [|c s]; [reflexivity|]. simpl in *.
  apply andb_true_iff in H as [_ H]. now apply IH.
Qed.

Lemma all_chars_substring (n : nat) :
  forall s, all_chars P s = true -> all_chars P (substring 0 n s) = true.
Proof.
  induction n as [|n IH]; intros s H; [destruct s; reflexivity|].
  destruct s as [|c s]; [reflexivity|]. simpl in *.
  apply andb_true_iff in H as [Hc H]. now rewrite Hc, IH.
Qed.

Lemma all_chars_split1 (sep s : string) :
  all_chars P s = true ->
  forall a b, Str.split1 sep s = [a; b] ->
              all_chars P a = true /\ all_chars P b = true.
Proof.
  induction s as [|c s IH]; intros H a b E; cbn [Str.split1] in E.
  - destruct (prefix sep ""); [|discriminate].
    inversion E; subst. split; [reflexivity | now apply all_chars_drop].
  - destruct (prefix sep (String c s)).
    + inversion E; subst. split; [reflexivity | now apply all_chars_drop].
    + simpl in H. apply andb_true_iff in H as [Hc H].
      destruct (Str.split1 sep s) as [|a' [|b' [|? ?]]]; try discriminate.
      inversion E; subst. destruct (IH H a' b eq_refl) as [Ha Hb].
      split; [simpl; now rewrite Hc, Ha | exact Hb].
Qed.

End CharFacts.

(** A successful repetition took a run of matching characters and
    handed the rest to a successful continuation. *)
Lemma many_inv_split {R : Type} (p : ascii -> bool)
    (k : string -> option R) (s : string) (r : R) :
  many p k s = Some r ->
  exists a s', s = a ++ s' /\ all_chars p a = true /\ k s' = Some r.
Proof.
  induction s as [|c s IH]; simpl; intros H.
  - exists "", "". auto.
  - destruct (p c) eqn:Ec.
    + destruct (many p k s) as [r'|] eqn:E.
      * inversion H; subst. destruct (IH eq_refl) as (a & s' & -> & Ha & Hk).
        exists (String c a), s'. simpl. rewrite Ec, Ha. auto.
      * exists "", (String c s). auto.
    + exists "", (String c s). auto.
Qed.

(** Two continuations that agree on the texts a property allows give
    the same repetition on such a text. *)
Lemma many_ext {R : Type} (Q : string -> Prop) (p : ascii -> bool)
    (k k' : string -> option R) :
  (forall c s, Q (String c s) -> Q s) ->
  (forall s, Q s -> k s = k' s) ->
  forall s, Q s -> many p k s = many p k' s.
Proof.
  intros Htail Hk. induction s as [|c s IH]; intros Hs; simpl.
  - now apply Hk.
  - rewrite (Hk _ Hs). destruct (p c); [|reflexivity].
    now rewrite (IH (Htail _ _ Hs)).
Qed.

(** Group 1 of a match is made of characters of the text matched. *)
Lemma exec_group_all (P : ascii -> bool) (pat : pattern) :
  forall whole caps s m,
    exec whole pat caps s = Some m ->
    all_chars P s = true ->
    all_chars P (group_start caps) = true ->
    (forall g, group1 caps = Some g -> all_chars P g = true) ->
    forall g, group1 m = Some g -> all_chars P g = true.
Proof.
  induction pat as [|it rest IH]; intros whole caps s m H Hs Hst Hg.
  - simpl in H. inversion H; subst. exact Hg.
  - destruct it; simpl in H.
    + destruct s as [|c s]; [discriminate|].
      destruct (p c); [|discriminate].
      simpl in Hs. apply andb_true_iff in Hs as [_ Hs]. eauto.
    + apply many_inv_split in H as (a & s' & -> & _ & H).
      rewrite all_chars_app in Hs. apply andb_true_iff in Hs as [_ Hs]. eauto.
    + destruct s as [|c s]; [discriminate|].
      destruct (p c); [|discriminate].
      simpl in Hs. apply andb_true_iff in Hs as [_ Hs].
      apply many_inv_split in H as (a & s' & -> & _ & H).
      rewrite all_chars_app in Hs. apply andb_true_iff in Hs as [_ Hs]. eauto.
    + apply (IH _ _ _ _ H Hs); [exact Hs | exact Hg].
    + apply (IH _ _ _ _ H Hs); [exact Hst|].
      simpl. intros g E. inversion E; subst.
      now apply all_chars_substring.
    + destruct (Nat.eqb _ _); [|discriminate]. eauto.
    + destruct (at_eol s); [|discriminate]. eauto.
Qed.

Lemma replace_no_underscore (s : string) :
  all_chars not_underscore (Str.replace "_" " " s) = true.
Proof.
  induction s as [|c s IH]; simpl; [reflexivity|]. rewrite IH.
  destruct (Ascii.eqb c "_") eqn:E; [reflexivity|].
  unfold not_underscore. now rewrite E.
Qed.

Lemma or_None_Some (o : option string) (t : string) :
  or_None o = Some t -> o = Some t /\ t <> "".
Proof.
  destruct o as [[|c s]|]; unfold or_None; simpl; intros H;
    inversion H; subst; split; [reflexivity | discriminate].
Qed.

(** The title the second half of the inferencer returns is a stripped
    piece of the cleaned stem. *)
Lemma title_is_stripped_piece (stem_clean : string)
    (artist album : option string) (a al : option string) (t : string) :
  (title <- match re_match TRACK_RE stem_clean with
            | Some m => g <- group_1 m ;; Return (Some (Str.strip g))
            | None => Return (Some (Str.strip stem_clean))
            end ;;
   both <- (if Str.contains " - " stem_clean && negb (truthy artist) then
              match Str.split1 " - " stem_clean with
              | [maybe_artist; maybe_title] =>
                  Return (Some (Str.strip maybe_artist),
                          or_else (Some (Str.strip maybe_title)) title)
              | _ => Raise ValueError
              end
            else Return (artist, title)) ;;
   Return (or_None (fst both), or_None (snd both), or_None album))
  = Return (a, Some t, al) ->
  forall P, all_chars P stem_clean = true ->
            exists piece, t = Str.strip piece /\ all_chars P piece = true.
Proof.
  intros H P HP.
  assert (Htitle : exists piece,
             match re_match TRACK_RE stem_clean with
             | Some m => g <- group_1 m ;; Return (Some (Str.strip g))
             | None => Return (Some (Str.strip stem_clean))
             end = Return (Some (Str.strip piece)) /\
             all_chars P piece = true).
  { destruct (re_match TRACK_RE stem_clean) as [m|] eqn:Em; [|eauto].
    destruct (track_match_group1 _ _ Em) as [g Eg]. rewrite Eg.
    exists g. split; [reflexivity|].
    unfold group_1 in Eg. destruct (group1 m) as [g'|] eqn:E1; [|discriminate].
    inversion Eg; subst g'.
    apply (exec_group_all P _ _ _ _ _ Em HP); [exact HP | discriminate | exact E1]. }
  destruct Htitle as (piece & Et & Hpiece). rewrite Et in H.
  cbn [bind] in H.
  destruct (Str.contains " - " stem_clean && negb (truthy artist)) eqn:Ec.
  - apply andb_true_iff in Ec as [Ec _].
    destruct (split1_contains _ _ Ec) as (x & y & Es). rewrite Es in H.
    cbn [bind fst snd] in H. injection H as _ Ht _.
    apply or_None_Some in Ht as [Ht _].
    destruct (all_chars_split1 P _ _ HP _ _ Es) as [_ Hy].
    unfold or_else in Ht. destruct (truthy (Some (Str.strip y)));
      inversion Ht; eauto.
  - cbn [bind fst snd] in H. injection H as _ Ht _.
    apply or_None_Some in Ht as [Ht _]. inversion Ht. eauto.
Qed.

(** What the first relative part decides. *)
Lemma infer_artist_of_parts (path root : PurePath) (c : ascii)
    (first_part : string) (rest : list string) :
  try_except (rel <- relative_to path root ;; Return (parts rel))
    is_ValueError (Return (parts path))
  = Return (String c first_part :: rest) ->
  exists t al,
    infer_from_path path root = Return (Some (String c first_part), t, al).
Proof.
  intros Hr. unfold infer_from_path. rewrite Hr. cbn [bind].
  destruct rest as [|b [|d l]];
    cbn [List.length Nat.leb getitem nth_error bind truthy negb andb];
    try (destruct (is_match (re_match DISC_RE d)); cbn [bind]);
    rewrite andb_false_r;
    match goal with
    | |- context [re_match TRACK_RE ?s] =>
        let Em := fresh "Em" in
        destruct (re_match TRACK_RE s) eqn:Em;
        [ destruct (track_match_group1 _ _ Em) as [g ->] | ]
    end; cbn [bind fst snd]; eauto.
Qed.

(** X5: the inferencer never raises, and none of the three fields it
    returns is the empty text. *)
Theorem infer_from_path_total_no_empty (path root : PurePath) :
  exists artist title album,
    infer_from_path path root = Return (artist, title, album) /\
    artist <> Some "" /\ title <> Some "" /\ album <> Some "".
Proof.
  destruct (infer_from_path_returns path root) as (a & t & al & H).
  exists (or_None a), (or_None t), (or_None al).
  repeat split; auto using or_None_not_empty.
Qed.

(** X6: for every path below the library root the inferred artist is
    the first part of the path relative to the root, whatever the file is
    called; for a file directly under the root that part is the file
    name. *)
Theorem infer_artist_below_root (root : PurePath) (first_part : string)
    (rest : list string) :
  first_part <> "" ->
  exists t al,
    infer_from_path
      (mkPath (anchor root) (tail root ++ first_part :: rest)%list) root
    = Return (Some first_part, t, al).
Proof.
  intros Hne. destruct first_part as [|c f]; [congruence|].
  apply infer_artist_of_parts with (rest := rest).
  now rewrite relative_to_under.
Qed.

Lemma infer_artist_below_root_witness :
  "a - b.mp3" <> "" /\
  exists t al,
    infer_from_path (Path "/music/a - b.mp3") (Path "/music")
    = Return (Some "a - b.mp3", t, al).
Proof.
  assert (Hne : "a - b.mp3" <> "") by discriminate.
  split; [exact Hne|].
  exact (infer_artist_below_root (Path "/music") "a - b.mp3" [] Hne).
Defined.

(** X7: for a path below the library root, no album is inferred when
    the path has one relative part; with two or more, the album is the
    second part as long as the third part, if any, does not match the
    disc pattern.  The parts count the file name: below [artist/] the
    album is the file name. *)
Theorem infer_album_second_part (root : PurePath) (artist album : string)
    (rest : list string) :
  (exists a t,
     infer_from_path (mkPath (anchor root) (tail root ++ [artist])%list) root
     = Return (a, t, None)) /\
  (album <> "" ->
   (forall d, nth_error rest 0 = Some d ->
              is_match (re_match DISC_RE d) = false) ->
   exists a t,
     infer_from_path
       (mkPath (anchor root) (tail root ++ artist :: album :: rest)%list)
       root
     = Return (a, t, Some album)).
Proof.
  split.
  - unfold infer_from_path. rewrite relative_to_under.
    cbn [bind try_except parts anchor tail List.length Nat.leb getitem
         nth_error].
    title_cases; eauto.
  - intros Hne Hd. unfold infer_from_path. rewrite relative_to_under.
    cbn [bind try_except parts anchor tail List.length Nat.leb getitem
         nth_error].
    assert (Hal : or_None (Some album) = Some album).
    { destruct album; [congruence | reflexivity]. }
    destruct rest as [|d l]; cbn [List.length Nat.leb getitem nth_error bind].
    + title_cases; rewrite Hal; eauto.
    + rewrite (Hd d eq_refl). cbn [bind]. title_cases; rewrite Hal; eauto.
Qed.

Lemma infer_album_second_part_witness :
  "album" <> "" /\
  (forall d, nth_error ["song.flac"] 0 = Some d ->
             is_match (re_match DISC_RE d) = false) /\
  exists a t,
    infer_from_path (Path "/music/artist/album/song.flac") (Path "/music")
    = Return (a, t, Some "album").
Proof.
  assert (Hne : "album" <> "") by discriminate.
  assert (Hd : forall d, nth_error ["song.flac"] 0 = Some d ->
                         is_match (re_match DISC_RE d) = false).
  { intros d E. inversion E; subst. reflexivity. }
  split; [exact Hne|]. split; [exact Hd|].
  exact (proj2 (infer_album_second_part (Path "/music") "artist" "album"
                  ["song.flac"]) Hne Hd).
Defined.

(** X8: for an absolute path that is not below the library root the
    inferencer falls back on the path's own parts, so that the inferred
    artist is the anchor of the path. *)
Theorem infer_outside_root (path root : PurePath) :
  relative_to path root = Raise ValueError ->
  anchor path <> "" ->
  exists t al,
    infer_from_path path root = Return (Some (anchor path), t, al).
Proof.
  intros Hr Ha. destruct (anchor path) as [|c a] eqn:E; [congruence|].
  apply infer_artist_of_parts with (rest := tail path).
  rewrite Hr. cbn [bind try_except is_ValueError]. unfold parts.
  now rewrite E.
Qed.

Lemma infer_outside_root_witness :
  relative_to (Path "/other/artist/song.mp3") (Path "/music")
  = Raise ValueError /\
  anchor (Path "/other/artist/song.mp3") <> "" /\
  exists t al,
    infer_from_path (Path "/other/artist/song.mp3") (Path "/music")
    = Return (Some "/", t, al).
Proof.
  assert (Ha : anchor (Path "/other/artist/song.mp3") <> "") by discriminate.
  split; [reflexivity|]. split; [exact Ha|].
  exact (infer_outside_root (Path "/other/artist/song.mp3") (Path "/music")
           eq_refl Ha).
Defined.

(** X9: a title the inferencer returns has no whitespace at either
    end and no underscore. *)
Theorem infer_title_clean (path root : PurePath) (a al : option string)
    (t : string) :
  infer_from_path path root = Return (a, Some t, al) ->
  Str.strip t = t /\ all_chars not_underscore t = true.
Proof.
  intros H. unfold infer_from_path in H.
  destruct (rel_parts_returns path root) as [l Hl]. rewrite Hl in H.
  cbn [bind] in H.
  assert (Hpiece : exists piece,
             t = Str.strip piece /\ all_chars not_underscore piece = true).
  { destruct l as [|x [|y [|z l]]];
      cbn [List.length Nat.leb getitem nth_error bind] in H;
      try (destruct (is_match (re_match DISC_RE z)); cbn [bind] in H);
      apply (title_is_stripped_piece _ _ _ _ _ _ H);
      apply replace_no_underscore. }
  destruct Hpiece as (piece & -> & Hp). split.
  - apply strip_idempotent.
  - now apply all_chars_strip.
Qed.

Lemma infer_title_clean_witness :
  infer_from_path (Path "/music/artist/album/03 - my_song .flac")
    (Path "/music")
  = Return (Some "artist", Some "my song", Some "album") /\
  Str.strip "my song" = "my song" /\
  all_chars not_underscore "my song" = true.
Proof.
  assert (E : infer_from_path (Path "/music/artist/album/03 - my_song .flac")
                (Path "/music")
              = Return (Some "artist", Some "my song", Some "album"))
    by (vm_compute; reflexivity).
  split; [exact E|].
  exact (infer_title_clean _ _ _ _ _ E).
Defined.

Lemma lit_i_c_inv (x : ascii) :
  lit_i "c" x = true -> x = "c"%char \/ x = "C"%char.
Proof.
  destruct x as [[] [] [] [] [] [] [] []]; intros H; vm_compute in H;
    try discriminate H; auto.
Qed.

Lemma lit_i_d_inv (x : ascii) :
  lit_i "d" x = true -> x = "d"%char \/ x = "D"%char.
Proof.
  destruct x as [[] [] [] [] [] [] [] []]; intros H; vm_compute in H;
    try discriminate H; auto.
Qed.

Lemma at_eol_inv (s : string) : at_eol s = true -> s = "" \/ s = newline.
Proof.
  destruct s as [|c [|c' s]]; [auto | | ].
  - destruct c as [[] [] [] [] [] [] [] []]; intros H;
      try discriminate H; auto.
  - destruct c as [[] [] [] [] [] [] [] []]; intros H; discriminate H.
Qed.

(** The disc pattern accepts a disc name followed by a text at which
    [$] holds. *)
Lemma disc_matches_end (c d : ascii) (ws ds e : string) :
  (c = "c"%char \/ c = "C"%char) -> (d = "d"%char \/ d = "D"%char) ->
  all_chars Str.isspace ws = true ->
  ds <> "" -> all_chars Str.isdigit ds = true ->
  at_eol e = true ->
  is_match (re_match DISC_RE (String c (String d (ws ++ ds ++ e)))) = true.
Proof.
  intros Hc Hd Hws Hne Hds He.
  assert (Hm : re_match DISC_RE (String c (String d (ws ++ ds ++ e)))
               <> None).
  { unfold re_match, DISC_RE. cbn [exec]. rewrite Nat.eqb_refl.
    assert (Ec : lit_i "c" c = true) by (destruct Hc; subst; reflexivity).
    assert (Ed : lit_i "d" d = true) by (destruct Hd; subst; reflexivity).
    rewrite Ec, Ed.
    apply many_complete; [assumption|].
    destruct ds as [|x ds]; [congruence|].
    simpl in Hds. apply andb_true_iff in Hds as [Hx Hds].
    cbn [append]. rewrite Hx.
    apply many_complete; [assumption|]. cbn [exec]. rewrite He. discriminate. }
  destruct (re_match DISC_RE _); [reflexivity | congruence].
Qed.

(** X10: the disc pattern accepts exactly the names made of the
    letters c and d in either case, optional whitespace and one or more
    digits, and those names followed by one line feed. *)
Theorem disc_pattern_accepts (s : string) :
  is_match (re_match DISC_RE s) = true <->
  (disc_token s \/ exists t, s = t ++ newline /\ disc_token t).
Proof.
  split.
  - intros H. destruct (re_match DISC_RE s) as [m|] eqn:Em; [|discriminate].
    clear H. unfold re_match, DISC_RE in Em. cbn [exec] in Em.
    rewrite Nat.eqb_refl in Em.
    destruct s as [|c s1]; [discriminate|].
    destruct (lit_i "c" c) eqn:Ec; [|discriminate].
    destruct s1 as [|d s2]; [discriminate|].
    destruct (lit_i "d" d) eqn:Ed; [|discriminate].
    apply lit_i_c_inv in Ec. apply lit_i_d_inv in Ed.
    apply many_inv_split in Em as (ws & s3 & -> & Hws & Em).
    destruct s3 as [|x s4]; [discriminate|].
    destruct (Str.isdigit x) eqn:Ex; [|discriminate].
    apply many_inv_split in Em as (ds & s5 & -> & Hds & Em).
    destruct (at_eol s5) eqn:Ee; [|discriminate].
    assert (Hx : all_chars Str.isdigit (String x ds) = true)
      by (simpl; now rewrite Ex, Hds).
    apply at_eol_inv in Ee as [-> | ->].
    + left. exists c, d, ws, (String x ds).
      rewrite append_empty_r. repeat split; auto. discriminate.
    + right. exists (String c (String d (ws ++ String x ds))). split.
      * cbn [append]. now rewrite append_assoc.
      * exists c, d, ws, (String x ds). repeat split; auto. discriminate.
  - intros [H | (t & -> & H)];
      destruct H as (c & d & ws & ds & -> & Hc & Hd & Hws & Hne & Hds).
    + rewrite <- (append_empty_r ds). now apply disc_matches_end.
    + cbn [append]. rewrite append_assoc. now apply disc_matches_end.
Qed.

(** X11: on a stem whose underscores have been replaced by spaces,
    the track pattern matches as the pattern without the underscore among
    its separators does: an underscore never separates a track number. *)
Theorem track_pattern_underscore_dead (stem : string) :
  re_match TRACK_RE (Str.replace "_" " " stem)
  = re_match TRACK_RE_no_underscore (Str.replace "_" " " stem).
Proof.
  pose proof (replace_no_underscore stem) as Hs.
  set (whole := Str.replace "_" " " stem) in *.
  unfold re_match, TRACK_RE, TRACK_RE_no_underscore.
  set (Q := fun s => all_chars not_underscore s = true).
  assert (Htail : forall c s, Q (String c s) -> Q s).
  { unfold Q. intros c s H. simpl in H.
    now apply andb_true_iff in H as [_ H]. }
  cbn [exec]. rewrite Nat.eqb_refl.
  apply (many_ext Q); [exact Htail | | exact Hs].
  intros s1 H1. destruct s1 as [|x1 s1]; [reflexivity|].
  destruct (Str.isdigit x1); [|reflexivity].
  apply (many_ext Q); [exact Htail | | exact (Htail _ _ H1)].
  intros s2 H2. apply (many_ext Q); [exact Htail | | exact H2].
  intros s3 H3. destruct s3 as [|x3 s3]; [reflexivity|].
  assert (Ex : one_of ["-"; "_"; "."]%char x3 = one_of ["-"; "."]%char x3).
  { unfold Q in H3. simpl in H3. apply andb_true_iff in H3 as [H3 _].
    unfold not_underscore in H3. apply negb_true_iff in H3.
    unfold one_of. simpl. now rewrite H3. }
  now rewrite Ex.
Qed.

(* ------------------------------------------------------------------ *)
(** ** More on the Metadata Resolver *)

(** [round] is within one half of its argument, and a tie goes to the
    even neighbour. *)
Lemma round_half_even_near (q : Q) :
  (Qabs (inject_Z (round_half_even q) - q) <= 1 # 2)%Q /\
  ((q - inject_Z (Qfloor q) == 1 # 2)%Q ->
   Z.even (round_half_even q) = true).
Proof.
  pose proof (Qfloor_le q) as Hlo. pose proof (Qlt_floor q) as Hhi.
  rewrite inject_Z_plus in Hhi. change (inject_Z 1) with 1%Q in Hhi.
  unfold round_half_even.
  destruct (Qcompare_spec (q - inject_Z (Qfloor q)) (1 # 2)) as [E|E|E].
  - split.
    + destruct (Z.even (Qfloor q));
        [|rewrite inject_Z_plus; change (inject_Z 1) with 1%Q];
        apply Qabs_Qle_condition; split; lra.
    + intros _. destruct (Z.even (Qfloor q)) eqn:Ev; [exact Ev|].
      rewrite Z.even_add, Ev. reflexivity.
  - split; [apply Qabs_Qle_condition; split; lra | intros E'; lra].
  - split; [|intros E'; lra].
    rewrite inject_Z_plus. change (inject_Z 1) with 1%Q.
    apply Qabs_Qle_condition; split; lra.
Qed.

Section ResolverMore.

Variable MutagenFile : PurePath -> result (option audio_file).
Variables path library_root : PurePath.

(** X12: the resolver returns exactly when the tag reader does not
    raise an exception outside [Exception]: every [Exception] is
    swallowed, whatever the file holds, and anything else is passed on. *)
Theorem get_metadata_returns_iff :
  (exists m, get_metadata MutagenFile path library_root = Return m) <->
  (forall e, MutagenFile path = Raise e -> is_Exception e = true).
Proof.
  split.
  - intros [m Hm] e He. unfold get_metadata in Hm. rewrite He in Hm.
    cbn [try_except] in Hm.
    destruct (is_Exception e); [reflexivity | discriminate Hm].
  - apply get_metadata_returns.
Qed.

(** X13: the duration is the length of the stream rounded to the
    nearest second, a tie going to the even second; without a stream
    info, without a length, or with a length that is not a number, no
    duration is returned and nothing is raised. *)
Theorem get_metadata_duration (a : audio_file) :
  MutagenFile path = Return (Some a) ->
  (forall q, info a = Some (mkInfo (Some (Finite q))) ->
     exists artist title album d,
       get_metadata MutagenFile path library_root
       = Return (artist, title, album, Some d) /\
       (Qabs (inject_Z d - q) <= 1 # 2)%Q /\
       ((q - inject_Z (Qfloor q) == 1 # 2)%Q -> Z.even d = true)) /\
  ((forall q, info a <> Some (mkInfo (Some (Finite q)))) ->
     exists artist title album,
       get_metadata MutagenFile path library_root
       = Return (artist, title, album, None)).
Proof.
  intros Hr.
  destruct (infer_from_path_returns path library_root)
    as (ia & it & ial & Hi).
  split.
  - intros q Hq. unfold get_metadata. rewrite Hr. cbn [try_except bind].
    rewrite Hq. cbn [length int_round bind try_except]. rewrite Hi.
    cbn [bind]. do 3 eexists. exists (round_half_even q).
    split; [reflexivity | apply round_half_even_near].
  - intros Hn. unfold get_metadata. rewrite Hr. cbn [try_except bind].
    destruct (info a) as [[[[q| |]|]]|];
      try (exfalso; apply (Hn q); reflexivity);
      cbn [length int_round bind try_except is_Exception];
      rewrite Hi; cbn [bind]; eauto.
Qed.

End ResolverMore.

Lemma get_metadata_duration_witness :
  reader_tagged (Path "/music/artist/album/01 - song.flac")
  = Return (Some tagged_audio) /\
  info tagged_audio = Some (mkInfo (Some (Finite (2005 # 10)))) /\
  exists artist title album d,
    get_metadata reader_tagged (Path "/music/artist/album/01 - song.flac")
      (Path "/music")
    = Return (artist, title, album, Some d) /\
    (Qabs (inject_Z d - (2005 # 10)) <= 1 # 2)%Q /\
    (((2005 # 10) - inject_Z (Qfloor (2005 # 10)) == 1 # 2)%Q ->
     Z.even d = true).
Proof.
  split; [reflexivity|]. split; [reflexivity|].
  exact (proj1 (get_metadata_duration reader_tagged
                  (Path "/music/artist/album/01 - song.flac")
                  (Path "/music") tagged_audio eq_refl)
           (2005 # 10) eq_refl).
Defined.

(** X14: for a file below the library root the resolved artist is
    never absent or empty: it is the artist tag the reader returned when
    that is not empty, and the first part of the relative path otherwise,
    also when the reader failed. *)
Theorem get_metadata_artist_present
    (MutagenFile : PurePath -> result (option audio_file))
    (root : PurePath) (first_part : string) (rest : list string)
    (audio : option audio_file) :
  first_part <> "" ->
  (MutagenFile (mkPath (anchor root) (tail root ++ first_part :: rest)%list)
   = Return audio \/
   (audio = None /\
    exists e,
      MutagenFile
        (mkPath (anchor root) (tail root ++ first_part :: rest)%list)
      = Raise e /\ is_Exception e = true)) ->
  exists title album duration,
    get_metadata MutagenFile
      (mkPath (anchor root) (tail root ++ first_part :: rest)%list) root
    = Return (Some (or_str (tag_field audio "artist") first_part),
              title, album, duration) /\
    or_str (tag_field audio "artist") first_part <> "".
Proof.
  intros Hne Hread.
  set (path := mkPath (anchor root) (tail root ++ first_part :: rest)%list)
    in *.
  assert (Hr : try_except (MutagenFile path) is_Exception (Return None)
               = Return audio).
  { destruct Hread as [-> | (-> & e & -> & He)]; simpl;
      [|rewrite He]; reflexivity. }
  destruct (get_metadata_of_audio MutagenFile path root audio Hr)
    as (ia & it & ial & d & Hi & Hg & _).
  destruct first_part as [|c f]; [congruence|].
  destruct (infer_artist_of_parts path root c f rest) as (t' & al' & Hi').
  { unfold path. now rewrite relative_to_under. }
  rewrite Hi' in Hi. injection Hi as <- <- <-.
  rewrite Hg.
  destruct (tag_field audio "artist") as [[|c0 s0]|] eqn:Et;
    cbn [prefer or_str]; do 3 eexists; split;
    try reflexivity; discriminate.
Qed.

Lemma get_metadata_artist_present_witness :
  "artist" <> "" /\
  reader_tagged (Path "/music/artist/album/01 - song.flac")
  = Return (Some tagged_audio) /\
  tag_field (Some tagged_audio) "artist" = Some "" /\
  exists title album duration,
    get_metadata reader_tagged (Path "/music/artist/album/01 - song.flac")
      (Path "/music")
    = Return (Some "artist", title, album, duration) /\
    "artist" <> "".
Proof.
  assert (Hne : "artist" <> "") by discriminate.
  split; [exact Hne|]. split; [reflexivity|]. split; [reflexivity|].
  exact (get_metadata_artist_present reader_tagged (Path "/music") "artist"
           ["album"; "01 - song.flac"] (Some tagged_audio) Hne
           (or_introl eq_refl)).
Defined.

(* ------------------------------------------------------------------ *)
(** ** More on the lookup *)

Lemma choose_best_result_In (results : list candidate)
    (title artist : option string) (r : candidate) :
  choose_best_result results title artist = Some r -> In r results.
Proof.
  destruct results as [|r0 l]; [discriminate|].
  unfold choose_best_result.
  destruct (negb (truthy title) && negb (truthy artist)).
  - intros H. inversion H; subst. now left.
  - pose proof (choose_scored title artist r0 l) as Hc. cbv zeta in Hc.
    destruct Hc as (i & best & Hi & Hc & _). rewrite Hc.
    intros H. inversion H; subst. eapply nth_error_In; exact Hi.
Qed.

Lemma or_str_nonempty (o : option string) (c : ascii) (s : string) :
  or_str o "" = String c s -> o = Some (String c s).
Proof. destruct o as [[|c' s']|]; simpl; congruence. Qed.

(** What the end of the lookup returns: lyrics that are not blank, from
    the field the flag names, of a result that is not instrumental. *)
Lemma lyrics_of_some (best : candidate) (text : string) (is_synced : bool) :
  lyrics_of best = (Some text, is_synced) ->
  has_nonspace text = true /\
  is_true (instrumental best) = false /\
  (if is_synced then syncedLyrics best = Some text
   else plainLyrics best = Some text /\ blank (syncedLyrics best) = true).
Proof.
  unfold lyrics_of, has_nonspace.
  destruct (is_true (instrumental best)); [discriminate|].
  rewrite !strip_eqb_empty.
  destruct (all_chars Str.isspace (or_str (syncedLyrics best) "")) eqn:Es;
    cbn [negb].
  - destruct (all_chars Str.isspace (or_str (plainLyrics best) "")) eqn:Ep;
      cbn [negb]; [discriminate|].
    intros H. inversion H; subst. rewrite Ep.
    repeat split.
    + destruct (or_str (plainLyrics best) "") as [|c s] eqn:E;
        [discriminate Ep|]. now apply or_str_nonempty in E.
    + rewrite or_str_empty in Es. now destruct (syncedLyrics best).
  - intros H. inversion H; subst. rewrite Es. repeat split.
    destruct (or_str (syncedLyrics best) "") as [|c s] eqn:E;
      [discriminate Es|]. now apply or_str_nonempty in E.
Qed.

Lemma lyrics_of_none (best : candidate) (b : bool) :
  lyrics_of best = (None, b) -> b = false.
Proof.
  unfold lyrics_of.
  destruct (is_true (instrumental best)); [congruence|].
  destruct (negb _); [discriminate|].
  destruct (negb _); [discriminate | congruence].
Qed.

Section LookupMore.

Variable search : option string -> result json_body.
Variables artist title : option string.

(** What the lookup returns comes out of [lyrics_of] on a result of the
    answer, or is [(None, False)]. *)
Lemma fetch_lyrics_returned (found : option string * bool) :
  fetch_lyrics_from_lrclib search artist title = Return found ->
  found = (None, false) \/
  exists results best,
    search (search_query artist title) = Return (JsonList results) /\
    In best results /\ found = lyrics_of best.
Proof.
  unfold fetch_lyrics_from_lrclib.
  destruct (negb (truthy title) && negb (truthy artist)).
  { intros H. inversion H. now left. }
  destruct (search (search_query artist title)) as [body|e] eqn:Es;
    cbn [bind try_except].
  - destruct body as [[|r rs]|]; try (intros H; inversion H; now left).
    destruct (choose_best_result (r :: rs) title artist) as [best|] eqn:Ec;
      [|intros H; inversion H; now left].
    intros H. inversion H; subst. right. exists (r :: rs), best.
    repeat split; auto. eapply choose_best_result_In; exact Ec.
  - destruct (is_Exception e); [|discriminate].
    intros H. inversion H. now left.
Qed.

Lemma fetch_lyrics_text_nonblank (text : string) (is_synced : bool) :
  fetch_lyrics_from_lrclib search artist title
  = Return (Some text, is_synced) ->
  has_nonspace text = true.
Proof.
  intros H. apply fetch_lyrics_returned in H.
  destruct H as [H | (results & best & _ & _ & H)]; [discriminate|].
  symmetry in H. now apply lyrics_of_some in H.
Qed.

(** X15: lyrics the lookup returns contain a non-whitespace character
    and are the synced lyrics (flag true) or, those being blank, the plain
    lyrics (flag false) of a result of the answer that is not flagged
    instrumental; without lyrics the flag is false. *)
Theorem fetch_lyrics_never_blank (lyrics : option string) (is_synced : bool) :
  fetch_lyrics_from_lrclib search artist title = Return (lyrics, is_synced) ->
  match lyrics with
  | Some text =>
      has_nonspace text = true /\
      exists results best,
        search (search_query artist title) = Return (JsonList results) /\
        In best results /\
        is_true (instrumental best) = false /\
        (if is_synced then syncedLyrics best = Some text
         else plainLyrics best = Some text /\
              blank (syncedLyrics best) = true)
  | None => is_synced = false
  end.
Proof.
  intros H. apply fetch_lyrics_returned in H.
  destruct H as [H | (results & best & Hs & Hin & H)].
  - inversion H; subst. reflexivity.
  - destruct lyrics as [text|].
    + symmetry in H. apply lyrics_of_some in H as (Hn & Hi & Hf).
      split; [exact Hn|]. exists results, best. auto.
    + symmetry in H. now apply lyrics_of_none in H.
Qed.

(** X16: without a title and without an artist the lookup returns
    no lyrics, whatever the service would answer; with one of them, a
    request that raises an [Exception], an answer that is not a list and
    an empty list each give no lyrics, and what the request raises
    outside [Exception] is passed on. *)
Theorem fetch_lyrics_request_failures :
  (truthy title = false -> truthy artist = false ->
   fetch_lyrics_from_lrclib search artist title = Return (None, false)) /\
  (truthy title = true \/ truthy artist = true ->
   (forall e,
       search (search_query artist title) = Raise e ->
       is_Exception e = true ->
       fetch_lyrics_from_lrclib search artist title = Return (None, false)) /\
   (forall e,
       search (search_query artist title) = Raise e ->
       is_Exception e = false ->
       fetch_lyrics_from_lrclib search artist title = Raise e) /\
   (search (search_query artist title) = Return JsonOther ->
    fetch_lyrics_from_lrclib search artist title = Return (None, false)) /\
   (search (search_query artist title) = Return (JsonList []) ->
    fetch_lyrics_from_lrclib search artist title = Return (None, false))).
Proof.
  unfold fetch_lyrics_from_lrclib. split.
  - intros -> ->. reflexivity.
  - intros Hq.
    assert (Hb : negb (truthy title) && negb (truthy artist) = false).
    { destruct Hq as [-> | ->]; simpl; [reflexivity | apply andb_false_r]. }
    rewrite Hb. repeat split.
    + intros e -> He. cbn [bind try_except]. now rewrite He.
    + intros e -> He. cbn [bind try_except]. now rewrite He.
    + intros ->. reflexivity.
    + intros ->. reflexivity.
Qed.

End LookupMore.

Lemma fetch_lyrics_request_failures_witness :
  (truthy (Some "b") = true \/ truthy (Some "y") = true) /\
  search_failing (search_query (Some "y") (Some "b"))
  = Raise RequestException /\
  is_Exception RequestException = true /\
  fetch_lyrics_from_lrclib search_failing (Some "y") (Some "b")
  = Return (None, false).
Proof.
  assert (Hq : truthy (Some "b") = true \/ truthy (Some "y") = true)
    by (left; reflexivity).
  split; [exact Hq|]. split; [reflexivity|]. split; [reflexivity|].
  exact (proj1 (proj2 (fetch_lyrics_request_failures search_failing
                         (Some "y") (Some "b")) Hq)
           RequestException eq_refl eq_refl).
Defined.

Lemma fetch_lyrics_never_blank_witness :
  fetch_lyrics_from_lrclib search_example (Some "y") (Some "b")
  = Return (Some "[00:01.00] la", true) /\
  has_nonspace "[00:01.00] la" = true /\
  exists results best,
    search_example (search_query (Some "y") (Some "b"))
    = Return (JsonList results) /\
    In best results /\
    is_true (instrumental best) = false /\
    syncedLyrics best = Some "[00:01.00] la".
Proof.
  assert (E : fetch_lyrics_from_lrclib search_example (Some "y") (Some "b")
              = Return (Some "[00:01.00] la", true))
    by (vm_compute; reflexivity).
  split; [exact E|].
  exact (fetch_lyrics_never_blank search_example (Some "y") (Some "b")
           (Some "[00:01.00] la") true E).
Defined.

(* ------------------------------------------------------------------ *)
(** ** More on rendering *)

Lemma islinebreak_isspace (c : ascii) :
  Str.islinebreak c = true -> Str.isspace c = true.
Proof.
  destruct c as [[] [] [] [] [] [] [] []]; intros H;
    try discriminate H; reflexivity.
Qed.

(** The lines of a text are all blank exactly when the text is. *)
Lemma splitlines_from_blank (n : nat) :
  forall s cur,
    String.length s <= n ->
    forallb (all_chars Str.isspace) (Str.splitlines_from cur s)
    = all_chars Str.isspace cur && all_chars Str.isspace s.
Proof.
  induction n as [|n IH]; intros s cur Hn.
  - destruct s; [|simpl in Hn; lia].
    destruct cur; simpl; [reflexivity | now rewrite !andb_true_r].
  - destruct s as [|c s].
    + destruct cur; simpl; [reflexivity | now rewrite !andb_true_r].
    + simpl in Hn. cbn [Str.splitlines_from all_chars].
      destruct (Str.islinebreak c) eqn:Eb.
      * rewrite (islinebreak_isspace _ Eb). cbn [forallb andb].
        f_equal.
        assert (Hs : forallb (all_chars Str.isspace)
                       (Str.splitlines_from "" s)
                     = all_chars Str.isspace s)
          by (rewrite IH by lia; reflexivity).
        destruct s as [|c' s'];
          [destruct c as [[] [] [] [] [] [] [] []]; reflexivity|].
        assert (Hs' : forallb (all_chars Str.isspace)
                        (Str.splitlines_from "" s')
                      = all_chars Str.isspace s')
          by (rewrite IH by (simpl in Hn; lia); reflexivity).
        destruct (Ascii.eqb c "013") eqn:Ec;
          [apply Ascii.eqb_eq in Ec; subst c|];
          [destruct (Ascii.eqb c' "010") eqn:Ec';
           [apply Ascii.eqb_eq in Ec'; subst c'; exact Hs'|]|].
        -- destruct c' as [[] [] [] [] [] [] [] []];
             try discriminate Ec'; exact Hs.
        -- destruct c as [[] [] [] [] [] [] [] []];
             try discriminate Ec; exact Hs.
      * rewrite IH by lia. rewrite all_chars_app. cbn [all_chars].
        now rewrite andb_true_r, andb_assoc.
Qed.

Lemma join_blank (l : list string) :
  all_chars Str.isspace (Str.join newline l)
  = forallb (all_chars Str.isspace) l.
Proof.
  induction l as [|x l IH]; [reflexivity|].
  destruct l as [|y l].
  - simpl. now rewrite andb_true_r.
  - change (Str.join newline (x :: y :: l))
      with (x ++ newline ++ Str.join newline (y :: l)).
    rewrite !all_chars_app, IH. reflexivity.
Qed.

Lemma stamp_blank (line : string) :
  all_chars Str.isspace (stamp line) = all_chars Str.isspace line.
Proof.
  unfold stamp. destruct (all_chars Str.isspace line) eqn:E; reflexivity.
Qed.

Lemma stamped_blank (plain : string) :
  all_chars Str.isspace
    (Str.join newline (map stamp (Str.splitlines plain)))
  = all_chars Str.isspace plain.
Proof.
  rewrite join_blank.
  assert (Hm : forall l, forallb (all_chars Str.isspace) (map stamp l)
                         = forallb (all_chars Str.isspace) l).
  { induction l as [|x l IH]; simpl; [reflexivity|].
    now rewrite stamp_blank, IH. }
  rewrite Hm. unfold Str.splitlines.
  now rewrite (splitlines_from_blank _ _ _ (le_n _)).
Qed.

Lemma append_newline_inv (body : string) :
  body ++ newline = newline <-> body = "".
Proof.
  split; [|now intros ->].
  destruct body as [|c [|c' s]]; [reflexivity | discriminate | discriminate].
Qed.

(** X17: plain lyrics render as a single line feed exactly when they
    hold nothing but whitespace. *)
Theorem make_unsynced_lrc_blank_iff (plain : string) :
  make_unsynced_lrc plain = newline <-> all_chars Str.isspace plain = true.
Proof.
  unfold make_unsynced_lrc. rewrite stamp_lines_map, append_newline_inv.
  rewrite <- stamped_blank. split.
  - apply rstrip_empty_inv.
  - apply rstrip_all_space.
Qed.

(** Rendered lyrics that are not blank end well. *)
Lemma lrc_content_ended (lyrics : string) (is_synced : bool) :
  has_nonspace lyrics = true -> well_ended (lrc_content lyrics is_synced).
Proof.
  unfold has_nonspace. intros H. apply negb_true_iff in H.
  unfold lrc_content, well_ended. destruct is_synced.
  - exists (Str.rstrip lyrics). repeat split; [apply rstrip_idempotent|].
    intros E. apply rstrip_empty_inv in E. congruence.
  - unfold make_unsynced_lrc. rewrite stamp_lines_map.
    eexists. repeat split; [apply rstrip_idempotent|].
    intros E. apply rstrip_empty_inv in E. rewrite stamped_blank in E.
    congruence.
Qed.

(** X18: for lyrics with a non-whitespace character the text written,
    synced or not, is a non-empty body without whitespace at its end,
    followed by one line feed. *)
Theorem lrc_content_well_ended (lyrics : string) (is_synced : bool) :
  has_nonspace lyrics = true -> well_ended (lrc_content lyrics is_synced).
Proof. exact (lrc_content_ended lyrics is_synced). Qed.

Lemma lrc_content_well_ended_witness :
  has_nonspace "la la" = true /\ well_ended (lrc_content "la la" false).
Proof.
  split; [reflexivity|].
  exact (lrc_content_well_ended "la la" false eq_refl).
Defined.

(* ------------------------------------------------------------------ *)
(** ** The lyrics file of a track *)

Lemma parts_eqb_eq (l1 l2 : list string) :
  parts_eqb l1 l2 = true <-> l1 = l2.
Proof.
  revert l2. induction l1 as [|x l1 IH]; intros [|y l2]; simpl;
    try (split; [discriminate | congruence]); [tauto|].
  rewrite andb_true_iff, String.eqb_eq, IH. split.
  - intros [-> ->]. reflexivity.
  - intros H. inversion H. auto.
Qed.

Lemma path_eqb_eq (p q : PurePath) : path_eqb p q = true <-> p = q.
Proof.
  unfold path_eqb. rewrite andb_true_iff, String.eqb_eq, parts_eqb_eq.
  destruct p, q; simpl. split.
  - intros [-> ->]. reflexivity.
  - intros H. inversion H. auto.
Qed.



Lemma length_drop (n : nat) :
  forall s, String.length (Str.drop n s) = String.length s - n.
Proof.
  induction n as [|n IH]; intros s; [destruct s; simpl; lia|].
  destruct s as [|c s]; simpl; [reflexivity | apply IH].
Qed.

Lemma length_append (a b : string) :
  String.length (a ++ b) = String.length a + String.length b.
Proof. induction a as [|c a IH]; simpl; [reflexivity | now rewrite IH]. Qed.

Lemma substring_append (a b : string) :
  substring 0 (String.length a) (a ++ b) = a.
Proof.
  induction a as [|c a IH]; simpl; [destruct b; reflexivity|].
  now rewrite IH.
Qed.

Lemma drop_append (a b : string) : Str.drop (String.length a) (a ++ b) = b.
Proof. induction a as [|c a IH]; simpl; [reflexivity | exact IH]. Qed.

Lemma rfind_append_lrc (a : string) :
  rfind "." (a ++ ".lrc") = Some (String.length a).
Proof.
  induction a as [|c a IH]; [reflexivity|].
  cbn [append rfind String.length]. now rewrite IH.
Qed.

(** The name without its suffix is the stem, and the stem of a name is
    not empty. *)
Lemma name_without_suffix (p : PurePath) :
  (if String.eqb (suffix p) "" then Pathlib.name p ++ ".lrc"
   else substring 0 (String.length (Pathlib.name p)
                     - String.length (suffix p)) (Pathlib.name p)
        ++ ".lrc")
  = stem p ++ ".lrc" /\
  (Pathlib.name p <> "" -> stem p <> "").
Proof.
  unfold suffix, stem. set (name := Pathlib.name p).
  destruct (rfind "." name) as [i|]; [|split; [reflexivity | auto]].
  destruct (Nat.ltb 0 i && Nat.ltb i (String.length name - 1)) eqn:E;
    [|split; [reflexivity | auto]].
  apply andb_true_iff in E as [E0 E1].
  apply Nat.ltb_lt in E0. apply Nat.ltb_lt in E1.
  assert (Hd : String.length (Str.drop i name) = String.length name - i)
    by apply length_drop.
  split.
  - assert (Hnb : String.eqb (Str.drop i name) "" = false).
    { destruct (Str.drop i name); [simpl in Hd; lia | reflexivity]. }
    rewrite Hnb, Hd.
    replace (String.length name - (String.length name - i)) with i by lia.
    reflexivity.
  - intros _. destruct name as [|c n]; [simpl in E1; lia|].
    destruct i; [lia | discriminate].
Qed.

(** [with_suffix(".lrc")] puts [".lrc"] after the stem. *)
Lemma with_suffix_lrc_eq (p : PurePath) :
  with_suffix p ".lrc"
  = if String.eqb (Pathlib.name p) "" then Raise ValueError
    else Return (mkPath (anchor p)
                   (app (removelast (tail p)) [stem p ++ ".lrc"])).
Proof.
  unfold with_suffix.
  change (Str.contains "/" ".lrc") with false.
  change (negb (String.eqb ".lrc" "") && negb (prefix "." ".lrc")
          || String.eqb ".lrc" ".") with false.
  cbv iota. destruct (String.eqb (Pathlib.name p) ""); [reflexivity|].
  now rewrite (proj1 (name_without_suffix p)).
Qed.

Lemma name_of_lrc (p : PurePath) :
  Pathlib.name
    (mkPath (anchor p) (app (removelast (tail p)) [stem p ++ ".lrc"]))
  = stem p ++ ".lrc".
Proof. unfold Pathlib.name. simpl. apply last_last. Qed.

(** The lyrics file of a named path, its stem and its suffix. *)
Lemma with_suffix_lrc_facts (p : PurePath) :
  (Pathlib.name p = "" -> with_suffix p ".lrc" = Raise ValueError) /\
  (Pathlib.name p <> "" ->
   exists q,
     with_suffix p ".lrc" = Return q /\
     anchor q = anchor p /\
     removelast (tail q) = removelast (tail p) /\
     Pathlib.name q = stem p ++ ".lrc" /\
     stem q = stem p /\
     suffix q = ".lrc" /\
     with_suffix q ".lrc" = Return q).
Proof.
  rewrite with_suffix_lrc_eq. split.
  - intros ->. reflexivity.
  - intros Hne. apply String.eqb_neq in Hne as Hb. rewrite Hb.
    pose proof (proj2 (name_without_suffix p) Hne) as Hst.
    set (q := mkPath (anchor p)
                (app (removelast (tail p)) [stem p ++ ".lrc"])).
    assert (Hn : Pathlib.name q = stem p ++ ".lrc") by apply name_of_lrc.
    assert (Hc : Nat.ltb 0 (String.length (stem p))
                 && Nat.ltb (String.length (stem p))
                      (String.length (stem p ++ ".lrc") - 1) = true).
    { rewrite length_append. apply andb_true_iff. split; apply Nat.ltb_lt.
      - destruct (stem p); [congruence | simpl; lia].
      - simpl. lia. }
    assert (Hs : stem q = stem p).
    { unfold stem. rewrite Hn, rfind_append_lrc, Hc.
      apply substring_append. }
    assert (Hx : suffix q = ".lrc").
    { unfold suffix. rewrite Hn, rfind_append_lrc, Hc. apply drop_append. }
    exists q. repeat split; auto.
    + unfold q. simpl. apply removelast_last.
    + rewrite with_suffix_lrc_eq, Hn, Hs.
      assert (Hnb : String.eqb (stem p ++ ".lrc") "" = false).
      { destruct (stem p); reflexivity. }
      rewrite Hnb. unfold q. simpl. now rewrite removelast_last.
Qed.

(** X19: the lyrics file of a track: [with_suffix(".lrc")] raises
    for a path without a name, and otherwise returns the path in the same
    directory whose name is the stem of the track and [".lrc"]; that path
    has the stem of the track and the suffix [".lrc"], and is its own
    lyrics file. *)
Theorem with_suffix_lrc (p : PurePath) :
  (Pathlib.name p = "" -> with_suffix p ".lrc" = Raise ValueError) /\
  (Pathlib.name p <> "" ->
   exists q,
     with_suffix p ".lrc" = Return q /\
     anchor q = anchor p /\
     removelast (tail q) = removelast (tail p) /\
     Pathlib.name q = stem p ++ ".lrc" /\
     stem q = stem p /\
     suffix q = ".lrc" /\
     with_suffix q ".lrc" = Return q).
Proof. exact (with_suffix_lrc_facts p). Qed.

Lemma with_suffix_lrc_witness :
  Pathlib.name (Path "/music/a/b/01 - x.y.flac") <> "" /\
  exists q,
    with_suffix (Path "/music/a/b/01 - x.y.flac") ".lrc" = Return q /\
    anchor q = "/" /\
    removelast (tail q) = ["music"; "a"; "b"] /\
    Pathlib.name q = "01 - x.y.lrc" /\
    stem q = "01 - x.y" /\
    suffix q = ".lrc" /\
    with_suffix q ".lrc" = Return q.
Proof.
  assert (Hne : Pathlib.name (Path "/music/a/b/01 - x.y.flac") <> "")
    by discriminate.
  split; [exact Hne|].
  exact (proj2 (with_suffix_lrc (Path "/music/a/b/01 - x.y.flac")) Hne).
Defined.

(* ------------------------------------------------------------------ *)
(** ** Writing and the run over the library *)



Section DriverFacts.

Variable MutagenFile : PurePath -> result (option audio_file).
Variable search : option string -> result json_body.
Variable write_error : PurePath -> string -> option exn.
Variable root : PurePath.

Local Abbreviation write_lrc := (write_lrc_for_track write_error).
Local Abbreviation process_one :=
  (process_file MutagenFile search write_error root).
Local Abbreviation process_all :=
  (process_library MutagenFile search write_error root).

(** A write that returns left the files as they were, or wrote the
    rendered lyrics to the lyrics file of the track. *)
Lemma write_lrc_effect (fs fs' : files) (track : PurePath)
    (lyrics : string) (is_synced overwrite : bool) :
  write_lrc fs track lyrics is_synced overwrite = Return fs' ->
  exists lrc,
    with_suffix track ".lrc" = Return lrc /\
    ((fs' = fs /\
      (file_exists fs lrc && negb overwrite = true \/
       exists e, write_error lrc (lrc_content lyrics is_synced) = Some e)) \/
     (file_exists fs lrc && negb overwrite = false /\
      write_error lrc (lrc_content lyrics is_synced) = None /\
      fs' = write_text fs lrc (lrc_content lyrics is_synced))).
Proof.
  unfold write_lrc_for_track.
  destruct (with_suffix track ".lrc") as [lrc|e]; [|discriminate].
  cbn [bind]. intros H. exists lrc. split; [reflexivity|].
  destruct (file_exists fs lrc && negb overwrite).
  - inversion H. left. auto.
  - destruct (write_error lrc (lrc_content lyrics is_synced)) as [e|] eqn:Ew;
      cbn [try_except] in H.
    + destruct (is_Exception e); [|discriminate]. inversion H. left. eauto.
    + inversion H. right. auto.
Qed.


(** A turn of the loop that returns left the files as they were, or
    wrote non-blank lyrics, rendered, to the lyrics file of a regular
    file with an audio suffix whose name does not start with ["._"]. *)
Lemma process_file_effect (overwrite : bool) (fs fs' : files)
    (path : PurePath) (is_file : bool) :
  process_one overwrite fs (path, is_file) = Return fs' ->
  fs' = fs \/
  (is_file = true /\
   prefix "._" (Pathlib.name path) = false /\
   existsb (String.eqb (Str.lower (suffix path))) AUDIO_EXTS = true /\
   exists lrc text is_synced,
     with_suffix path ".lrc" = Return lrc /\
     file_exists fs lrc && negb overwrite = false /\
     has_nonspace text = true /\
     fs' = write_text fs lrc (lrc_content text is_synced)).
Proof.
  unfold process_file.
  destruct is_file; cbn [negb]; [|intros H; inversion H; now left].
  destruct (prefix "._" (Pathlib.name path)) eqn:Ep;
    [intros H; inversion H; now left|].
  destruct (existsb (String.eqb (Str.lower (suffix path))) AUDIO_EXTS) eqn:Ex;
    cbn [negb]; [|intros H; inversion H; now left].
  destruct (with_suffix path ".lrc") as [lrc|e] eqn:El; [|discriminate].
  cbn [bind].
  destruct (file_exists fs lrc && negb overwrite) eqn:Ee;
    [intros H; inversion H; now left|].
  destruct (get_metadata MutagenFile path root) as [[[[ar ti] al] du]|e];
    [|discriminate]. cbn [bind].
  destruct (fetch_lyrics_from_lrclib search ar ti) as [[lyrics synced]|e]
    eqn:Ef; [|discriminate]. cbn [bind].
  destruct lyrics as [[|c text]|]; cbn [truthy negb];
    try (intros H; inversion H; now left).
  intros H. apply write_lrc_effect in H as (lrc' & Hl & H).
  rewrite El in Hl. inversion Hl; subst lrc'.
  destruct H as [[-> _] | (_ & _ & ->)]; [now left | right].
  repeat split; auto. exists lrc, (String c text), synced.
  repeat split; auto.
  apply (fetch_lyrics_text_nonblank search ar ti _ _ Ef).
Qed.

End DriverFacts.


Section RunFacts.

Variable MutagenFile : PurePath -> result (option audio_file).
Variable search : option string -> result json_body.
Variable write_error : PurePath -> string -> option exn.
Variable root : PurePath.

Local Abbreviation process_one :=
  (process_file MutagenFile search write_error root).
Local Abbreviation process_all :=
  (process_library MutagenFile search write_error root).

Lemma process_file_keeps (fs fs' : files) (entry : PurePath * bool) :
  process_one false fs entry = Return fs' ->
  forall p text, fs p = Some text -> fs' p = Some text.
Proof.
  destruct entry as [path is_file]. intros H p text Hp.
  apply process_file_effect in H
    as [-> | (_ & _ & _ & lrc & t & sy & _ & He & _ & ->)]; [exact Hp|].
  rewrite andb_true_r in He. unfold file_exists in He.
  destruct (path_eqb p lrc) eqn:E.
  - apply path_eqb_eq in E. subst p. rewrite Hp in He. discriminate He.
  - unfold write_text. now rewrite E.
Qed.

Lemma process_library_keeps (listing : list (PurePath * bool)) :
  forall fs p text,
    fs p = Some text -> fst (process_all false listing fs) p = Some text.
Proof.
  induction listing as [|entry rest IH]; intros fs p text Hp; [exact Hp|].
  cbn [process_library].
  destruct (process_one false fs entry) as [fs1|e] eqn:E; [|exact Hp].
  apply IH. eapply process_file_keeps; eauto.
Qed.

(** X21: without [overwrite], every file that exists before the run
    holds the same text after it, also when the run ends in an
    exception. *)
Theorem process_library_keeps_existing (listing : list (PurePath * bool))
    (fs : files) (p : PurePath) (text : string) :
  fs p = Some text -> fst (process_all false listing fs) p = Some text.
Proof. apply process_library_keeps. Qed.

(** X22: a file that differs after the run is the lyrics file of a
    listed regular file whose suffix is an audio suffix in either case and
    whose name does not start with ["._"]; its own suffix is [".lrc"], so
    that no audio file is touched. *)
Theorem process_library_changes_only_lrc (overwrite : bool)
    (listing : list (PurePath * bool)) (fs : files) (p : PurePath) :
  fst (process_all overwrite listing fs) p <> fs p ->
  exists track,
    In (track, true) listing /\
    prefix "._" (Pathlib.name track) = false /\
    existsb (String.eqb (Str.lower (suffix track))) AUDIO_EXTS = true /\
    with_suffix track ".lrc" = Return p /\
    suffix p = ".lrc".
Proof.
  revert fs. induction listing as [|entry rest IH]; intros fs H.
  - simpl in H. congruence.
  - cbn [process_library] in H.
    destruct (process_one overwrite fs entry) as [fs1|e] eqn:E;
      [|simpl in H; congruence].
    assert (Hrest : fst (process_all overwrite rest fs1) p <> fs1 p ->
                    exists track,
                      In (track, true) (entry :: rest) /\
                      prefix "._" (Pathlib.name track) = false /\
                      existsb (String.eqb (Str.lower (suffix track)))
                        AUDIO_EXTS = true /\
                      with_suffix track ".lrc" = Return p /\
                      suffix p = ".lrc").
    { intros H1. destruct (IH fs1 H1) as (track & Hin & Hrest).
      exists track. split; [now right | exact Hrest]. }
    destruct entry as [path is_file].
    apply process_file_effect in E
      as [-> | (-> & Hp & Hx & lrc & t & sy & Hl & _ & _ & ->)];
      [now apply Hrest|].
    destruct (path_eqb p lrc) eqn:Eq.
    + apply path_eqb_eq in Eq. subst p. exists path.
      split; [now left|]. repeat split; auto.
      rewrite with_suffix_lrc_eq in Hl.
      destruct (String.eqb (Pathlib.name path) "") eqn:En; [discriminate|].
      pose proof (proj1 (String.eqb_neq _ _) En) as Hne.
      destruct (proj2 (with_suffix_lrc_facts path) Hne)
        as (q & Hq & _ & _ & _ & _ & Hs & _).
      rewrite with_suffix_lrc_eq, En in Hq. congruence.
    + apply Hrest. unfold write_text at 2. now rewrite Eq.
Qed.





End RunFacts.

Lemma process_library_keeps_existing_witness :
  one_lrc (Path "/music/artist/album/01 - song.lrc") = Some "kept" /\
  fst (process_library reader_tagged search_example never_fails
         (Path "/music") false example_listing one_lrc)
    (Path "/music/artist/album/01 - song.lrc")
  = Some "kept".
Proof.
  split; [reflexivity|].
  exact (process_library_keeps_existing reader_tagged search_example
           never_fails (Path "/music") example_listing one_lrc
           (Path "/music/artist/album/01 - song.lrc") "kept" eq_refl).
Defined.

Lemma process_library_changes_only_lrc_witness :
  fst (process_library reader_tagged search_example never_fails
         (Path "/music") false example_listing no_files)
    (Path "/music/artist/album/01 - song.lrc")
  <> no_files (Path "/music/artist/album/01 - song.lrc") /\
  exists track,
    In (track, true) example_listing /\
    prefix "._" (Pathlib.name track) = false /\
    existsb (String.eqb (Str.lower (suffix track))) AUDIO_EXTS = true /\
    with_suffix track ".lrc"
    = Return (Path "/music/artist/album/01 - song.lrc") /\
    suffix (Path "/music/artist/album/01 - song.lrc") = ".lrc".
Proof.
  assert (H : fst (process_library reader_tagged search_example never_fails
                     (Path "/music") false example_listing no_files)
                (Path "/music/artist/album/01 - song.lrc")
              <> no_files (Path "/music/artist/album/01 - song.lrc"))
    by (vm_compute; discriminate).
  split; [exact H|].
  exact (process_library_changes_only_lrc reader_tagged search_example
           never_fails (Path "/music") false example_listing no_files
           (Path "/music/artist/album/01 - song.lrc") H).
Defined.


(* ------------------------------------------------------------------ *)
(** ** The normalization of the code and the words of a text *)

Lemma lower_append (a b : string) :
  Str.lower (a ++ b) = Str.lower a ++ Str.lower b.
Proof. induction a as [|c a IH]; simpl; [reflexivity | now rewrite IH]. Qed.

Lemma lower_join_space (l : list string) :
  Str.lower (Str.join " " l) = Str.join " " (map Str.lower l).
Proof.
  induction l as [|x l IH]; [reflexivity|].
  destruct l as [|y l]; [reflexivity|].
  change (Str.join " " (x :: y :: l)) with (x ++ " " ++ Str.join " " (y :: l)).
  change (Str.join " " (map Str.lower (x :: y :: l)))
    with (Str.lower x ++ " " ++ Str.join " " (map Str.lower (y :: l))).
  now rewrite !lower_append, IH.
Qed.

Lemma rstrip_cons_word (c : ascii) (s : string) :
  Str.isspace c = false -> Str.rstrip (String c s) = String c (Str.rstrip s).
Proof.
  intros Hc. cbn [Str.rstrip]. rewrite Hc. now destruct (Str.rstrip s).
Qed.

Lemma strip_cons_word (c : ascii) (s : string) :
  Str.isspace c = false -> Str.strip (String c s) = String c (Str.rstrip s).
Proof.
  intros Hc. unfold Str.strip. rewrite (rstrip_cons_word _ _ Hc).
  cbn [Str.lstrip]. now rewrite Hc.
Qed.

Lemma strip_cons_space (c : ascii) (s : string) :
  Str.isspace c = true -> Str.strip (String c s) = Str.strip s.
Proof.
  intros Hc. unfold Str.strip. rewrite !lstrip_rstrip_comm.
  cbn [Str.lstrip]. now rewrite Hc.
Qed.

Lemma lstrip_single_spaced (s : string) :
  single_spaced true s = true -> Str.lstrip s = s.
Proof.
  destruct s as [|c s]; [reflexivity|]. simpl.
  destruct (Str.isspace c); [|reflexivity].
  rewrite andb_false_r. discriminate.
Qed.

Lemma words_head_nonempty (s : string) :
  forall w ws, words s = w :: ws -> w <> "".
Proof.
  induction s as [|c s IH]; intros w ws H; [discriminate|].
  cbn [words] in H. destruct (Str.isspace c); [eauto|].
  destruct (starts_word s).
  - destruct (words s); inversion H; discriminate.
  - inversion H. discriminate.
Qed.

Lemma join_cons_char (c : ascii) (w : string) (ws : list string) :
  Str.join " " (String c w :: ws) = String c (Str.join " " (w :: ws)).
Proof. destruct ws; reflexivity. Qed.

(** Collapsing the whitespace runs of a text and trimming it leaves its
    words, one space between them. *)
Lemma strip_collapse_words (s : string) :
  forall b,
    Str.strip (sub_many1 Str.isspace " " b s) = Str.join " " (words s).
Proof.
  induction s as [|c s IH]; intros b; [reflexivity|].
  cbn [sub_many1 words]. destruct (Str.isspace c) eqn:Ec.
  - destruct b; [apply IH|].
    change (Str.strip (String " " (sub_many1 Str.isspace " " true s))
            = Str.join " " (words s)).
    rewrite strip_cons_space by reflexivity. apply IH.
  - rewrite (strip_cons_word _ _ Ec).
    destruct s as [|c' s']; [reflexivity|].
    cbn [starts_word]. destruct (Str.isspace c') eqn:Ec'; cbn [negb].
    + (* the next character is whitespace *)
      pose proof (IH false) as IHf. cbn [sub_many1] in IHf |- *.
      rewrite Ec' in IHf |- *.
      change (" " ++ sub_many1 Str.isspace " " true s')
        with (String " " (sub_many1 Str.isspace " " true s')) in IHf |- *.
      rewrite strip_cons_space in IHf by reflexivity.
      unfold Str.strip in IHf. rewrite lstrip_rstrip_comm in IHf.
      rewrite (lstrip_single_spaced _ (single_spaced_collapse s' true))
        in IHf.
      cbn [Str.rstrip]. rewrite IHf, isspace_space.
      destruct (words (String c' s')) as [|w ws] eqn:Ew; [reflexivity|].
      pose proof (words_head_nonempty _ _ _ Ew) as Hw.
      change (Str.join " " (String c "" :: w :: ws))
        with (String c (" " ++ Str.join " " (w :: ws))).
      destruct (Str.join " " (w :: ws)) as [|x r] eqn:Ej; [|reflexivity].
      exfalso. destruct w; [congruence|]. rewrite join_cons_char in Ej.
      discriminate Ej.
    + (* the word goes on *)
      pose proof (IH false) as IHf. cbn [sub_many1] in IHf |- *.
      rewrite Ec' in IHf |- *.
      rewrite (strip_cons_word _ _ Ec') in IHf.
      rewrite (rstrip_cons_word _ _ Ec'), IHf.
      destruct (words (String c' s')) as [|w ws] eqn:Ew.
      * exfalso. cbn [words] in Ew. rewrite Ec' in Ew.
        destruct (starts_word s'); [destruct (words s')|]; discriminate Ew.
      * symmetry. apply join_cons_char.
Qed.

(** The normalization of the code is the normalization of the
    specification. *)
Lemma normalize_spec_normalize (s : string) : normalize s = spec_normalize s.
Proof.
  unfold normalize, spec_normalize.
  now rewrite strip_collapse_words, lower_join_space.
Qed.

Lemma field_matches_spec (query field : option string) :
  field_matches (normalize (or_empty query)) field
  = spec_field_matches query field.
Proof.
  unfold field_matches, spec_field_matches.
  rewrite !normalize_spec_normalize.
  destruct (spec_normalize (or_empty query)); reflexivity.
Qed.

Lemma match_score_spec_score (title artist : option string) (r : candidate) :
  match_score title artist r = spec_score title artist r.
Proof.
  unfold match_score, spec_score. now rewrite !field_matches_spec.
Qed.

(** C3: on a non-empty list and a query with a title or an artist, the
    score the selector gives a result is 2 when its title and its artist
    both equal the query's after normalization (whitespace runs collapsed
    to single spaces, ends trimmed, case folded), 1 when exactly one does
    and 0 otherwise, a query field that is absent or normalizes to the
    empty text matching nothing; the selector returns a result of the
    highest score, and among those the first in input order. *)
Theorem choose_best_result_first_highest (results : list candidate)
    (title artist : option string) :
  results <> [] ->
  truthy title = true \/ truthy artist = true ->
  (forall r, score (normalize (or_str title "")) (normalize (or_str artist ""))
                   r
             = spec_score title artist r) /\
  exists i best,
    nth_error results i = Some best /\
    choose_best_result results title artist = Some best /\
    (forall x, In x results ->
               spec_score title artist x <= spec_score title artist best) /\
    (forall j x, j < i -> nth_error results j = Some x ->
                 spec_score title artist x < spec_score title artist best).
Proof.
  intros Hne Hq.
  split; [intros r; now rewrite score_match_score, match_score_spec_score|].
  destruct results as [|r0 l]; [congruence|].
  unfold choose_best_result.
  assert (Hb : negb (truthy title) && negb (truthy artist) = false).
  { destruct Hq as [-> | ->]; simpl; [reflexivity | apply andb_false_r]. }
  rewrite Hb.
  pose proof (choose_scored title artist r0 l) as H. cbv zeta in H.
  destruct H as (i & best & Hi & Hc & Hmax & Hfirst).
  exists i, best. repeat split; auto.
  - intros x Hx. rewrite <- !match_score_spec_score, <- !score_match_score.
    now apply Hmax.
  - intros j x Hj Hx.
    rewrite <- !match_score_spec_score, <- !score_match_score.
    now apply (Hfirst j).
Qed.

Lemma choose_best_result_first_highest_witness :
  [candidate_A_X; candidate_B_Y] <> [] /\
  (truthy (Some "b") = true \/ truthy (Some " y ") = true) /\
  spec_score (Some "b") (Some " y ") candidate_A_X = 0 /\
  spec_score (Some "b") (Some " y ") candidate_B_Y = 2 /\
  score (normalize (or_str (Some "b") "")) (normalize (or_str (Some " y ") ""))
    candidate_B_Y = 2 /\
  choose_best_result [candidate_A_X; candidate_B_Y] (Some "b") (Some " y ")
  = Some candidate_B_Y.
Proof.
  assert (Hne : [candidate_A_X; candidate_B_Y] <> []) by discriminate.
  assert (Hq : truthy (Some "b") = true \/ truthy (Some " y ") = true)
    by (left; reflexivity).
  assert (HA : spec_score (Some "b") (Some " y ") candidate_A_X = 0)
    by reflexivity.
  assert (HB : spec_score (Some "b") (Some " y ") candidate_B_Y = 2)
    by reflexivity.
  split; [exact Hne|]. split; [exact Hq|].
  split; [exact HA|]. split; [exact HB|].
  destruct (choose_best_result_first_highest
              [candidate_A_X; candidate_B_Y] (Some "b") (Some " y ") Hne Hq)
    as (Hscore & i & best & Hi & Hc & Hmax & _).
  split; [rewrite Hscore; exact HB|].
  rewrite Hc. f_equal.
  destruct i as [|[|i]]; simpl in Hi.
  - inversion Hi; subst best.
    specialize (Hmax candidate_B_Y (or_intror (or_introl eq_refl))).
    rewrite HA, HB in Hmax. inversion Hmax.
  - now inversion Hi.
  - destruct i; discriminate Hi.
Defined.

